(** * BookList: four sequence containers kept in lockstep

    A shallow embedding of [book_list.cpp].  A [BookList] owns a
    [std::array], a [std::vector], a [std::list] and a
    [std::forward_list] of [Book]s and keeps them equal.  Member
    functions are modelled in a small state-and-exception monad over the
    five data members; the [Book] class ([book.hpp]) is an interface the
    development is parametric in.

    Sizes, offsets and counts ([std::size_t], and the [int] loop
    indices that range over them) are natural numbers: every index the
    code forms is bounded by the capacity of the array, far below the
    range of either type. *)

From Stdlib Require Import ZArith Lia Ascii String DecimalString DecimalFacts DecimalNat.
From stdpp Require Import base tactics option list.

Local Open Scope nat_scope.

(** ** The [Book] interface

    [book.hpp] is not part of this translation unit.  The member
    functions below use a default constructor, [operator==] / [!=],
    [operator<] / [>], move assignment and the two stream operators. *)

(** A [std::istream]: the characters not yet extracted, and whether
    [good()] still holds (no [eofbit], no [failbit]). *)
Record istream := Istream { rdbuf : string; good : bool }.

Class BookInterface := {
  Book : Type;
  (** [Book()] *)
  book_default : Book;
  (** [lhs == rhs]; [lhs != rhs] is its negation *)
  book_eqb : Book -> Book -> bool;
  (** [lhs < rhs] and [lhs > rhs] *)
  book_ltb : Book -> Book -> bool;
  book_gtb : Book -> Book -> bool;
  (** what is left in a [Book] that has been moved from *)
  book_moved_from : Book -> Book;
  (** [stream << book] *)
  book_insertion : Book -> string;
  (** [stream >> book]: the stream and the book after the extraction *)
  book_extraction : istream -> Book -> istream * Book;
  (** [books_array_.size()], the template argument of the [std::array] *)
  capacity : nat
}.

(** ** Exceptions and the monad of member functions *)

Inductive exn :=
| InvalidInternalStateException
| InvalidOffsetException
| CapacityExceededException.

Inductive outcome (A : Type) :=
| Return (a : A)
| Throw (e : exn).
Arguments Return {A} a.
Arguments Throw {A} e.

Definition returned {A} (o : outcome A) : bool :=
  match o with Return _ => true | Throw _ => false end.

Inductive Position := TOP | BOTTOM.

Section BookList.
Context {BI : BookInterface}.

Definition book_neqb (a b : Book) : bool := negb (book_eqb a b).

(** The data members of [BookList]. *)
Record BookList := MkBookList {
  books_array_ : list Book;
  books_array_size_ : nat;
  books_vector_ : list Book;
  books_dl_list_ : list Book;
  books_sl_list_ : list Book
}.

(** [BookList::BookList() = default] *)
Definition empty_book_list : BookList :=
  {| books_array_ := replicate capacity book_default;
     books_array_size_ := 0;
     books_vector_ := [];
     books_dl_list_ := [];
     books_sl_list_ := [] |}.

(** A non-const member function: the outcome together with the object
    as the call (or the exception) leaves it. *)
Definition M (A : Type) : Type := BookList -> outcome A * BookList.

Definition ret {A} (a : A) : M A := fun bl => (Return a, bl).
Definition throw {A} (e : exn) : M A := fun bl => (Throw e, bl).
Definition bind {A B} (m : M A) (k : A -> M B) : M B :=
  fun bl => match m bl with
            | (Return a, bl') => k a bl'
            | (Throw e, bl') => (Throw e, bl')
            end.
(** calling a const member function *)
Definition call {A} (f : BookList -> outcome A) : M A := fun bl => (f bl, bl).
Definition gets {A} (f : BookList -> A) : M A := fun bl => (Return (f bl), bl).
Definition modify (f : BookList -> BookList) : M unit := fun bl => (Return tt, f bl).

Notation "x <- m ;; k" := (bind m (fun x => k))
  (at level 100, m at next level, right associativity).
Notation "m ;;; k" := (bind m (fun _ => k))
  (at level 100, right associativity).

(** ** The four containers *)

(** *** [std::array]: [books_array_[i]]; reading outside the array is
    undefined in C++ and gives [Book()] here *)
Definition array_at (arr : list Book) (i : nat) : Book :=
  default book_default (arr !! i).

(** The gap-opening loop of [insert]:
    [for (int i = books_array_size_; i > offset_from_top; --i)
       books_array_[i] = books_array_[i - 1];] *)
Fixpoint array_shift_right (offset_from_top i : nat) (arr : list Book) : list Book :=
  match i with
  | 0 => arr
  | S j =>
      if offset_from_top <? i
      then array_shift_right offset_from_top j (<[i := array_at arr j]> arr)
      else arr
  end.

(** [std::move(first, last, d_first)] on the array, [n = last - first]:
    [*d_first++ = std::move( *first++ )], [n] times. *)
Fixpoint std_move (n first d_first : nat) (arr : list Book) : list Book :=
  match n with
  | 0 => arr
  | S n' =>
      let x := array_at arr first in
      std_move n' (S first) (S d_first)
               (<[first := book_moved_from x]> (<[d_first := x]> arr))
  end.

(** *** [std::vector]: [insert] and [erase] at [begin() + pos] *)
Definition vector_insert (pos : nat) (x : Book) (v : list Book) : list Book :=
  take pos v ++ x :: drop pos v.
Definition vector_erase (pos : nat) (v : list Book) : list Book :=
  take pos v ++ drop (S pos) v.

(** *** [std::list] and [std::forward_list]: walk, then splice

    [std::next(l.begin(), n)] followed by [insert] / [erase], and
    [std::next(l.before_begin(), n)] followed by [insert_after] /
    [erase_after] both walk [n] links and splice at the node reached.
    Walking past the end is undefined in C++; the walk stops there. *)
Fixpoint splice_in (n : nat) (x : Book) (l : list Book) : list Book :=
  match n, l with
  | 0, _ => x :: l
  | S n', y :: l' => y :: splice_in n' x l'
  | S _, [] => [x]
  end.
Fixpoint splice_out (n : nat) (l : list Book) : list Book :=
  match n, l with
  | _, [] => []
  | 0, _ :: l' => l'
  | S n', y :: l' => y :: splice_out n' l'
  end.

Definition list_insert_at := splice_in.
Definition list_erase_at := splice_out.
Definition forward_list_insert_after := splice_in.
Definition forward_list_erase_after := splice_out.

(** ** Consistency *)

(** [std::distance(books_sl_list_.begin(), books_sl_list_.end())] *)
Definition books_sl_list_size (bl : BookList) : nat := length (books_sl_list_ bl).

(** The [while] loop of [containers_are_consistent]: four cursors
    advanced in unison until the vector's cursor reaches [cend()].  A
    cursor of another container that runs out first would be
    dereferenced past the end; the size test excludes that. *)
Fixpoint consistent_walk (arr vec dl sl : list Book) {struct vec} : bool :=
  match vec with
  | [] => true
  | v :: vec' =>
      match arr, dl, sl with
      | a :: arr', d :: dl', s :: sl' =>
          if book_neqb a v || book_neqb a d || book_neqb a s
          then false
          else consistent_walk arr' vec' dl' sl'
      | _, _, _ => false
      end
  end.

Definition containers_are_consistent (bl : BookList) : bool :=
  if negb (books_array_size_ bl =? length (books_vector_ bl))
     || negb (books_array_size_ bl =? length (books_dl_list_ bl))
     || negb (books_array_size_ bl =? books_sl_list_size bl)
  then false
  else consistent_walk (books_array_ bl) (books_vector_ bl)
                       (books_dl_list_ bl) (books_sl_list_ bl).

(** ** Queries *)

Definition size (bl : BookList) : outcome nat :=
  if negb (containers_are_consistent bl)
  then Throw InvalidInternalStateException
  else Return (length (books_vector_ bl)).

(** [std::find(first, last, value)]: [None] is [last]. *)
Fixpoint std_find (value : Book) (v : list Book) : option nat :=
  match v with
  | [] => None
  | x :: v' => if book_eqb x value then Some 0 else S <$> std_find value v'
  end.

Definition find (book : Book) (bl : BookList) : outcome nat :=
  if negb (containers_are_consistent bl)
  then Throw InvalidInternalStateException
  else match std_find book (books_vector_ bl) with
       | Some i => Return i
       | None => size bl
       end.

(** ** Mutators *)

Definition set_array (arr : list Book) (n : nat) (bl : BookList) : BookList :=
  {| books_array_ := arr; books_array_size_ := n;
     books_vector_ := books_vector_ bl;
     books_dl_list_ := books_dl_list_ bl;
     books_sl_list_ := books_sl_list_ bl |}.
Definition set_vector (v : list Book) (bl : BookList) : BookList :=
  {| books_array_ := books_array_ bl; books_array_size_ := books_array_size_ bl;
     books_vector_ := v;
     books_dl_list_ := books_dl_list_ bl;
     books_sl_list_ := books_sl_list_ bl |}.
Definition set_dl_list (l : list Book) (bl : BookList) : BookList :=
  {| books_array_ := books_array_ bl; books_array_size_ := books_array_size_ bl;
     books_vector_ := books_vector_ bl;
     books_dl_list_ := l;
     books_sl_list_ := books_sl_list_ bl |}.
Definition set_sl_list (l : list Book) (bl : BookList) : BookList :=
  {| books_array_ := books_array_ bl; books_array_size_ := books_array_size_ bl;
     books_vector_ := books_vector_ bl;
     books_dl_list_ := books_dl_list_ bl;
     books_sl_list_ := l |}.

(** [BookList::insert(const Book&, std::size_t)] *)
Definition insert (book : Book) (offset_from_top : nat) : M unit :=
  sz <- call size;;
  if sz <? offset_from_top then throw InvalidOffsetException else
  pos <- call (find book);;
  sz' <- call size;;
  if negb (pos =? sz') then ret tt else
  (* array *)
  n <- gets books_array_size_;;
  if capacity <=? n then throw CapacityExceededException else
  modify (fun bl =>
    set_array (<[offset_from_top := book]>
                 (array_shift_right offset_from_top n (books_array_ bl)))
              (S n) bl);;;
  (* vector *)
  modify (fun bl => set_vector (vector_insert offset_from_top book (books_vector_ bl)) bl);;;
  (* singly linked list *)
  modify (fun bl =>
    set_sl_list (forward_list_insert_after offset_from_top book (books_sl_list_ bl)) bl);;;
  (* doubly linked list *)
  modify (fun bl =>
    set_dl_list (list_insert_at offset_from_top book (books_dl_list_ bl)) bl);;;
  ok <- gets containers_are_consistent;;
  if negb ok then throw InvalidInternalStateException else ret tt.

(** [BookList::insert(const Book&, Position)] *)
Definition insert_at (book : Book) (position : Position) : M unit :=
  match position with
  | TOP => insert book 0
  | BOTTOM => sz <- call size;; insert book sz
  end.

(** [BookList::remove(std::size_t)].  [books_array_size_--] is reached
    with at least one book in the list. *)
Definition remove (offset_from_top : nat) : M unit :=
  sz <- call size;;
  if sz <=? offset_from_top then ret tt else
  (* array *)
  modify (fun bl =>
    set_array (std_move (capacity - (offset_from_top + 1))
                        (offset_from_top + 1) offset_from_top (books_array_ bl))
              (books_array_size_ bl - 1) bl);;;
  (* vector *)
  modify (fun bl => set_vector (vector_erase offset_from_top (books_vector_ bl)) bl);;;
  (* singly linked list *)
  modify (fun bl =>
    set_sl_list (forward_list_erase_after offset_from_top (books_sl_list_ bl)) bl);;;
  (* doubly linked list *)
  modify (fun bl => set_dl_list (list_erase_at offset_from_top (books_dl_list_ bl)) bl);;;
  ok <- gets containers_are_consistent;;
  if negb ok then throw InvalidInternalStateException else ret tt.

(** [BookList::remove(const Book&)] *)
Definition remove_book (book : Book) : M unit :=
  pos <- call (find book);;
  remove pos.

(** [BookList::move_to_top] *)
Definition move_to_top (book : Book) : M unit :=
  pos <- call (find book);;
  sz <- call size;;
  (if negb (pos =? sz)
   then remove_book book;;; insert book 0
   else ret tt);;;
  ok <- gets containers_are_consistent;;
  if negb ok then throw InvalidInternalStateException else ret tt.

(** Range-based [for] over a container of books. *)
Fixpoint for_each (books : list Book) (body : Book -> M unit) : M unit :=
  match books with
  | [] => ret tt
  | book :: rest => body book;;; for_each rest body
  end.

(** [BookList::operator+=(const std::initializer_list<Book>&)] *)
Definition concatenate_books (rhs : list Book) : M unit :=
  for_each rhs (fun book => insert_at book BOTTOM);;;
  ok <- gets containers_are_consistent;;
  if negb ok then throw InvalidInternalStateException else ret tt.

(** [BookList::operator+=(const BookList&)] walks [rhs.books_vector_].
    With [this == &rhs] every book walked is already present, no insert
    touches the vector, and the walk sees the same sequence. *)
Definition concatenate (rhs : BookList) : M unit :=
  concatenate_books (books_vector_ rhs).

(** [BookList::BookList(const std::initializer_list<Book>&)] *)
Definition from_initializer_list (init_list : list Book) : outcome unit * BookList :=
  concatenate_books init_list empty_book_list.

(** [BookList::swap], for [this != &rhs]: the pair is ([*this], [rhs])
    after the call.  For [this == &rhs] the function returns at once. *)
Definition swap (this rhs : BookList) : BookList * BookList :=
  ({| books_array_ := books_array_ rhs;
      books_array_size_ := books_array_size_ rhs;
      books_vector_ := books_vector_ rhs;
      books_dl_list_ := books_dl_list_ rhs;
      books_sl_list_ := books_sl_list_ rhs |},
   {| books_array_ := books_array_ this;
      books_array_size_ := books_array_size_ this;
      books_vector_ := books_vector_ this;
      books_dl_list_ := books_dl_list_ this;
      books_sl_list_ := books_sl_list_ this |}).

(** ** Streams *)

Definition isspace (c : ascii) : bool :=
  let n := nat_of_ascii c in (n =? 32) || ((9 <=? n) && (n <=? 13)).
Definition isdigit (c : ascii) : bool :=
  let n := nat_of_ascii c in (48 <=? n) && (n <=? 57).

Fixpoint skipws (s : string) : string :=
  match s with
  | String c s' => if isspace c then skipws s' else s
  | EmptyString => EmptyString
  end.

Fixpoint get_digits (acc : nat) (s : string) : nat * string :=
  match s with
  | String c s' =>
      if isdigit c then get_digits (10 * acc + (nat_of_ascii c - 48)) s' else (acc, s)
  | EmptyString => (acc, EmptyString)
  end.

Definition at_eof (s : string) : bool :=
  match s with EmptyString => true | String _ _ => false end.

(** [stream >> count] for an unsigned [count]: leading whitespace is
    skipped and the digits that follow are read; running into the end
    of the input sets [eofbit].  When nothing can be read, [failbit] is
    set and [count] is 0.  Signs and numbers too large for [std::size_t]
    are not modelled. *)
Definition extract_size_t (stream : istream) : istream * nat :=
  if negb (good stream) then (stream, 0)
  else
    let s := skipws (rdbuf stream) in
    match s with
    | EmptyString => (Istream EmptyString false, 0)
    | String c _ =>
        if isdigit c
        then let '(n, rest) := get_digits 0 s in (Istream rest (negb (at_eof rest)), n)
        else (Istream s false, 0)
    end.

Fixpoint ignore_chars (n : nat) (s : string) : istream :=
  match n with
  | 0 => Istream s true
  | S n' =>
      match s with
      | EmptyString => Istream EmptyString false
      | String _ s' => ignore_chars n' s'
      end
  end.

(** [stream.ignore(n)] *)
Definition ignore (n : nat) (stream : istream) : istream :=
  if negb (good stream) then stream else ignore_chars n (rdbuf stream).

(** [stream << n] for an integer [n >= 0] *)
Definition put_nat (n : nat) : string := NilZero.string_of_uint (Nat.to_uint n).

Fixpoint spaces (n : nat) : string :=
  match n with 0 => EmptyString | S n' => String " " (spaces n') end.

(** [stream << std::setw(w) << text] *)
Definition setw (w : nat) (text : string) : string :=
  (spaces (w - String.length text) ++ text)%string.

(** The loop of [operator<<]:
    [stream << '\n' << std::setw(5) << count++ << ":  " << book]. *)
Fixpoint put_books (count : nat) (books : list Book) (stream : string) : string :=
  match books with
  | [] => stream
  | book :: rest =>
      put_books (S count) rest
        (stream ++ String "010" (setw 5 (put_nat count)) ++ ":  "
                ++ book_insertion book)%string
  end.

(** [operator<<(std::ostream&, const BookList&)]: the text in the
    stream after the call, given the text [stream] holds before. *)
Definition operator_insertion (stream : string) (book_list : BookList) : outcome string :=
  if negb (containers_are_consistent book_list)
  then Throw InvalidInternalStateException
  else match size book_list with
       | Throw e => Throw e
       | Return sz =>
           Return (put_books 0 (books_sl_list_ book_list) (stream ++ put_nat sz)
                   ++ String "010" EmptyString)%string
       end.

(** The [while] loop of [operator>>].  It has no bound of its own; the
    model runs it for at most [fuel] tests of its condition and answers
    [None] when they are used up. *)
Fixpoint extraction_loop (fuel count : nat) (stream : istream) (book_list : BookList)
  : option (outcome istream * BookList) :=
  match fuel with
  | 0 => None
  | S fuel' =>
      if negb (count =? books_sl_list_size book_list)
      then
        let temp_book := book_default in
        let stream := ignore 4 stream in
        let '(stream, temp_book) := book_extraction stream temp_book in
        match insert_at temp_book BOTTOM book_list with
        | (Return _, book_list') => extraction_loop fuel' count stream book_list'
        | (Throw e, book_list') => Some (Throw e, book_list')
        end
      else Some (Return stream, book_list)
  end.

(** [operator>>(std::istream&, BookList&)] *)
Definition operator_extraction (fuel : nat) (stream : istream) (book_list : BookList)
  : option (outcome istream * BookList) :=
  if negb (containers_are_consistent book_list)
  then Some (Throw InvalidInternalStateException, book_list)
  else
    let '(stream, count) := extract_size_t stream in
    let stream := ignore 1 stream in
    extraction_loop fuel count stream book_list.

(** ** Relational operators *)

(** The [for] loop of [compare]: [vector_iter] over this vector,
    [other_iter] advanced alongside. *)
Fixpoint compare_walk (this_vector other_vector : list Book) : Z :=
  match this_vector with
  | [] => 0%Z
  | x :: this_rest =>
      match other_vector with
      | y :: other_rest =>
          if book_ltb x y then (-1)%Z
          else if book_gtb x y then 1%Z
          else compare_walk this_rest other_rest
      | [] => 0%Z
      end
  end.

(** [BookList::compare] *)
Definition compare (this other : BookList) : outcome Z :=
  if negb (containers_are_consistent this) || negb (containers_are_consistent other)
  then Throw InvalidInternalStateException
  else
    match size this, size other with
    | Return n, Return m =>
        let walk := Return (compare_walk (books_vector_ this) (books_vector_ other)) in
        if negb (n =? m)
        then if n <? m then Return (-1)%Z
             else if m <? n then Return 1%Z
             else walk
        else walk
    | Throw e, _ => Throw e
    | _, Throw e => Throw e
    end.

Definition on_compare (test : Z -> bool) (lhs rhs : BookList) : outcome bool :=
  match compare lhs rhs with
  | Return c => Return (test c)
  | Throw e => Throw e
  end.

Definition operator_eq := on_compare (fun c => (c =? 0)%Z).
Definition operator_ne := on_compare (fun c => negb (c =? 0)%Z).
Definition operator_lt := on_compare (fun c => (c <? 0)%Z).
Definition operator_le := on_compare (fun c => (c <=? 0)%Z).
Definition operator_gt := on_compare (fun c => (c >? 0)%Z).
Definition operator_ge := on_compare (fun c => (c >=? 0)%Z).

(** ** What the containers hold *)

(** The books the array holds: its first [books_array_size_] slots. *)
Definition array_contents (bl : BookList) : list Book :=
  take (books_array_size_ bl) (books_array_ bl).

(** All four containers hold the same sequence, and the array is a
    [std::array] of [capacity] slots. *)
Definition in_lockstep (bl : BookList) : Prop :=
  length (books_array_ bl) = capacity
  /\ books_array_size_ bl = length (books_vector_ bl)
  /\ array_contents bl = books_vector_ bl
  /\ books_dl_list_ bl = books_vector_ bl
  /\ books_sl_list_ bl = books_vector_ bl.

(** [book] compares equal to an element of the list. *)
Definition holds (bl : BookList) (book : Book) : Prop :=
  exists i x, books_vector_ bl !! i = Some x /\ book_eqb x book = true.

(** No two positions of the list hold books that compare equal. *)
Definition duplicate_free (bl : BookList) : Prop :=
  forall i j x y,
    books_vector_ bl !! i = Some x -> books_vector_ bl !! j = Some y ->
    book_eqb x y = true -> i = j.

(** States a program can observe: what the constructors build and what
    the public member functions and the extraction operator leave
    behind, whether they return or throw. *)
Inductive reachable : BookList -> Prop :=
| reach_default : reachable empty_book_list
| reach_initializer_list init_list :
    reachable (snd (from_initializer_list init_list))
| reach_insert bl book offset :
    reachable bl -> reachable (snd (insert book offset bl))
| reach_insert_at bl book position :
    reachable bl -> reachable (snd (insert_at book position bl))
| reach_remove bl offset :
    reachable bl -> reachable (snd (remove offset bl))
| reach_remove_book bl book :
    reachable bl -> reachable (snd (remove_book book bl))
| reach_move_to_top bl book :
    reachable bl -> reachable (snd (move_to_top book bl))
| reach_concatenate_books bl rhs :
    reachable bl -> reachable (snd (concatenate_books rhs bl))
| reach_concatenate bl rhs :
    reachable bl -> reachable rhs -> reachable (snd (concatenate rhs bl))
| reach_swap_this bl rhs :
    reachable bl -> reachable rhs -> reachable (fst (swap bl rhs))
| reach_swap_rhs bl rhs :
    reachable bl -> reachable rhs -> reachable (snd (swap bl rhs))
| reach_extraction bl fuel stream o bl' :
    reachable bl ->
    operator_extraction fuel stream bl = Some (o, bl') ->
    reachable bl'.

(** A run of [insert] calls, each on the list the previous one left,
    whether it returned or threw. *)
Definition insert_all (calls : list (Book * nat)) (bl : BookList) : BookList :=
  fold_left (fun bl call => snd (insert (fst call) (snd call) bl)) calls bl.

(** The list once [insert] has written all four containers. *)
Definition inserted (book : Book) (offset : nat) (bl : BookList) : BookList :=
  {| books_array_ :=
       <[offset := book]>
         (array_shift_right offset (books_array_size_ bl) (books_array_ bl));
     books_array_size_ := S (books_array_size_ bl);
     books_vector_ := vector_insert offset book (books_vector_ bl);
     books_dl_list_ := list_insert_at offset book (books_dl_list_ bl);
     books_sl_list_ := forward_list_insert_after offset book (books_sl_list_ bl) |}.

(** The list once [remove] has written all four containers. *)
Definition removed (offset : nat) (bl : BookList) : BookList :=
  {| books_array_ :=
       std_move (capacity - (offset + 1)) (offset + 1) offset (books_array_ bl);
     books_array_size_ := books_array_size_ bl - 1;
     books_vector_ := vector_erase offset (books_vector_ bl);
     books_dl_list_ := list_erase_at offset (books_dl_list_ bl);
     books_sl_list_ := forward_list_erase_after offset (books_sl_list_ bl) |}.

(** A member function that leaves in lockstep every list it finds in
    lockstep, returning or throwing. *)
Definition preserves {A} (m : M A) : Prop :=
  forall bl, in_lockstep bl -> in_lockstep (snd (m bl)).

(** The value [compare] returns on consistent lists, by their vectors. *)
Definition compare_value (v w : list Book) : Z :=
  if length v <? length w then (-1)%Z
  else if length w <? length v then 1%Z
  else compare_walk v w.

(** What [operator+=] is meant to leave: the books held, followed by
    the books of [rhs] not yet held, in the order of [rhs], each once. *)
Fixpoint append_new (held rhs : list Book) : list Book :=
  match rhs with
  | [] => held
  | book :: rest =>
      append_new (if std_find book held is Some _ then held else held ++ [book]) rest
  end.

(** A member function that keeps a property of the list, returning or
    throwing. *)
Definition keeps (inv : BookList -> Prop) {A} (m : M A) : Prop :=
  forall bl, inv bl -> inv (snd (m bl)).

(** The text [operator<<] writes for a list of [n] books [books],
    behind whatever the stream holds. *)
Definition serialized (n : nat) (books : list Book) : string :=
  (put_nat n ++ put_books 0 books EmptyString ++ String "010" EmptyString)%string.

End BookList.

(** ** A sample [Book]: a book known by a number

    The number is written in decimal and read back as [stream >> n]
    reads an unsigned number; a failed extraction leaves the book as it
    was. *)

Definition sample_extraction (stream : istream) (book : nat) : istream * nat :=
  if negb (good stream) then (stream, book)
  else
    let s := skipws (rdbuf stream) in
    match s with
    | EmptyString => (Istream EmptyString false, book)
    | String c _ =>
        if isdigit c
        then let '(n, rest) := get_digits 0 s in (Istream rest (negb (at_eof rest)), n)
        else (Istream s false, book)
    end.

Definition sample_books : BookInterface :=
  {| Book := nat;
     book_default := 0;
     book_eqb := Nat.eqb;
     book_ltb := Nat.ltb;
     book_gtb := fun a b => Nat.ltb b a;
     book_moved_from := fun _ => 0;
     book_insertion := put_nat;
     book_extraction := sample_extraction;
     capacity := 3 |}.

(** [BookList{7, 8, 9}] *)
Definition sample_shelf : @BookList sample_books :=
  snd (@from_initializer_list sample_books [7; 8; 9]).

(** [BookList{5, 3}] *)
Definition sample_pair : @BookList sample_books :=
  snd (@from_initializer_list sample_books [5; 3]).

(** [BookList{7}] *)
Definition sample_single : @BookList sample_books :=
  snd (@from_initializer_list sample_books [7]).

(** What [operator<<] writes for [sample_pair]. *)
Definition sample_pair_text : string :=
  ("2" ++ String "010" "    0:  5" ++ String "010" "    1:  3"
       ++ String "010" EmptyString)%string.

(** What [operator>>] makes of that text. *)
Definition sample_pair_parsed : @BookList sample_books :=
  @MkBookList sample_books [0; 1; 0] 2 [0; 1] [0; 1] [0; 1].

(** A list whose array and vector disagree. *)
Definition sample_torn : @BookList sample_books :=
  @MkBookList sample_books [7; 0; 0] 1 [8] [8] [8].

(** A stream that declares one element. *)
Definition sample_stream : istream :=
  Istream ("1" ++ String "010" "    0:  5" ++ String "010" EmptyString) true.

(** * Properties *)

Section BookListProperties.
Context {BI : BookInterface}.

(** ** The containers' loops *)

Lemma array_shift_right_length offset i arr :
  length (array_shift_right offset i arr) = length arr.
Proof.
  revert arr; induction i as [|j IH]; intros arr; simpl; [done|].
  destruct (offset <? S j); [|done].
  by rewrite IH, length_insert.
Qed.

Lemma array_at_lookup arr i : i < length arr -> Some (array_at arr i) = arr !! i.
Proof.
  intros Hi. unfold array_at.
  destruct (lookup_lt_is_Some_2 arr i Hi) as [x Hx]. by rewrite Hx.
Qed.

(** After the gap-opening loop, slots [offset+1 .. i] hold what was one
    slot to their left and every other slot is as before. *)
Lemma array_shift_right_lookup offset i arr k :
  i < length arr -> offset <= i ->
  array_shift_right offset i arr !! k =
    if decide (offset < k <= i) then arr !! (k - 1) else arr !! k.
Proof.
  revert arr; induction i as [|j IH]; intros arr Hlen Hoff; simpl.
  - case_decide; [lia|done].
  - destruct (Nat.ltb_spec offset (S j)) as [Hlt|Hge].
    + rewrite IH by (rewrite ?length_insert; lia). clear IH.
      destruct (decide (k = S j)) as [->|Hk].
      * do 2 (case_decide; try lia).
        rewrite list_lookup_insert_eq by lia.
        replace (S j - 1) with j by lia. apply array_at_lookup; lia.
      * repeat case_decide; try lia; by rewrite list_lookup_insert_ne by lia.
    + clear IH. case_decide; [lia|done].
Qed.

Lemma array_insert_contents arr n v offset x :
  n < length arr -> take n arr = v -> offset <= n ->
  take (S n) (<[offset := x]> (array_shift_right offset n arr))
  = take offset v ++ x :: drop offset v.
Proof.
  intros Hlen Hv Hoff.
  assert (length v = n) as Hlv by (subst v; rewrite length_take; lia).
  apply list_eq; intros k.
  destruct (decide (k < S n)) as [Hk|Hk].
  - rewrite lookup_take_lt by lia.
    destruct (decide (k = offset)) as [->|Hne].
    + rewrite list_lookup_insert_eq by (rewrite array_shift_right_length; lia).
      rewrite lookup_app_r by (rewrite length_take; lia).
      rewrite length_take. by replace (offset - offset `min` length v) with 0 by lia.
    + rewrite list_lookup_insert_ne by done.
      rewrite array_shift_right_lookup by lia.
      destruct (decide (k < offset)) as [Hlo|Hhi].
      * case_decide; [lia|].
        rewrite lookup_app_l by (rewrite length_take; lia).
        rewrite lookup_take_lt by lia. subst v. by rewrite lookup_take_lt by lia.
      * case_decide; [|lia].
        rewrite lookup_app_r by (rewrite length_take; lia).
        rewrite length_take.
        replace (k - offset `min` length v) with (S (k - 1 - offset)) by lia.
        simpl. rewrite lookup_drop. subst v. rewrite lookup_take_lt by lia.
        f_equal; lia.
  - rewrite lookup_take_ge by lia. symmetry. apply lookup_ge_None.
    rewrite length_app, length_take; simpl. rewrite length_drop. lia.
Qed.

Lemma std_move_length n first d_first arr :
  length (std_move n first d_first arr) = length arr.
Proof.
  revert first d_first arr; induction n as [|n IH]; intros; simpl; [done|].
  by rewrite IH, !length_insert.
Qed.

(** After [std::move] of [n] slots one place to the left, the slots
    before the destination are as before and the [n] slots from the
    destination on hold what was one slot to their right. *)
Lemma std_move_lookup n d arr k :
  S d + n <= length arr -> k < d + n ->
  std_move n (S d) d arr !! k = if decide (k < d) then arr !! k else arr !! S k.
Proof.
  revert d arr; induction n as [|n IH]; intros d arr Hlen Hk; simpl.
  - case_decide; [done|lia].
  - rewrite IH by (rewrite ?length_insert; lia). clear IH.
    destruct (decide (k = d)) as [->|Hne].
    + do 2 (case_decide; try lia).
      rewrite list_lookup_insert_ne by lia.
      rewrite list_lookup_insert_eq by lia. apply array_at_lookup; lia.
    + repeat case_decide; try lia; by rewrite !list_lookup_insert_ne by lia.
Qed.

Lemma array_erase_contents arr n v offset :
  n <= length arr -> take n arr = v -> offset < n ->
  take (n - 1) (std_move (length arr - (offset + 1)) (offset + 1) offset arr)
  = take offset v ++ drop (S offset) v.
Proof.
  intros Hlen Hv Hoff.
  assert (length v = n) as Hlv by (subst v; rewrite length_take; lia).
  replace (offset + 1) with (S offset) by lia.
  apply list_eq; intros k.
  destruct (decide (k < n - 1)) as [Hk|Hk].
  - rewrite lookup_take_lt by lia.
    rewrite std_move_lookup by lia.
    case_decide.
    + rewrite lookup_app_l by (rewrite length_take; lia).
      rewrite lookup_take_lt by lia. subst v. by rewrite lookup_take_lt by lia.
    + rewrite lookup_app_r by (rewrite length_take; lia).
      rewrite length_take, lookup_drop. subst v. rewrite lookup_take_lt by lia.
      f_equal; lia.
  - rewrite lookup_take_ge by lia. symmetry. apply lookup_ge_None.
    rewrite length_app, length_take, length_drop. lia.
Qed.

Lemma splice_in_take_drop n x l :
  n <= length l -> splice_in n x l = take n l ++ x :: drop n l.
Proof.
  revert l; induction n as [|n IH]; intros [|y l] Hn; simpl in *; try done; try lia.
  by rewrite IH by lia.
Qed.

Lemma splice_out_take_drop n l : splice_out n l = take n l ++ drop (S n) l.
Proof.
  revert l; induction n as [|n IH]; intros [|y l]; simpl; try done.
  by rewrite IH.
Qed.

(** ** Queries on a consistent list *)

Lemma consistent_sizes bl :
  containers_are_consistent bl = true ->
  books_array_size_ bl = length (books_vector_ bl)
  /\ length (books_dl_list_ bl) = length (books_vector_ bl)
  /\ length (books_sl_list_ bl) = length (books_vector_ bl).
Proof.
  unfold containers_are_consistent, books_sl_list_size.
  destruct (Nat.eqb_spec (books_array_size_ bl) (length (books_vector_ bl)));
  destruct (Nat.eqb_spec (books_array_size_ bl) (length (books_dl_list_ bl)));
  destruct (Nat.eqb_spec (books_array_size_ bl) (length (books_sl_list_ bl)));
  simpl; intros; try done; lia.
Qed.

Lemma size_consistent bl :
  containers_are_consistent bl = true -> size bl = Return (length (books_vector_ bl)).
Proof. intros H. unfold size. by rewrite H. Qed.

Lemma size_inconsistent bl :
  containers_are_consistent bl = false -> size bl = Throw InvalidInternalStateException.
Proof. intros H. unfold size. by rewrite H. Qed.

Lemma std_find_Some book v i :
  std_find book v = Some i ->
  i < length v /\ exists x, v !! i = Some x /\ book_eqb x book = true.
Proof.
  revert i; induction v as [|y v IH]; intros i; simpl; [done|].
  destruct (book_eqb y book) eqn:Hy.
  - intros [= <-]. split; [lia|]. by exists y.
  - destruct (std_find book v) as [j|]; simpl; [|done].
    intros [= <-]. destruct (IH j eq_refl) as [? ?]. split; [lia|done].
Qed.

Lemma std_find_None book v :
  std_find book v = None <-> (forall i x, v !! i = Some x -> book_eqb x book = false).
Proof.
  induction v as [|y v IH]; simpl.
  - split; [intros _ i x; by rewrite lookup_nil | done].
  - destruct (book_eqb y book) eqn:Hy.
    + split; [done|]. intros H. specialize (H 0 y eq_refl). congruence.
    + destruct (std_find book v) as [j|]; simpl.
      * split; [done|]. intros H. exfalso.
        assert (Some j = None) as Hbad; [|done].
        apply IH. intros i x Hx. apply (H (S i) x Hx).
      * split; [|done]. intros _ [|i] x; simpl.
        -- by intros [= <-].
        -- by apply IH.
Qed.

Lemma holds_std_find bl book :
  holds bl book <-> is_Some (std_find book (books_vector_ bl)).
Proof.
  split.
  - intros (i & x & Hx & Hb).
    destruct (std_find book (books_vector_ bl)) eqn:Hf; [done|].
    rewrite (proj1 (std_find_None _ _) Hf i x Hx) in Hb. done.
  - intros [i Hi]. apply std_find_Some in Hi as (_ & x & ? & ?). by exists i, x.
Qed.

Lemma find_consistent book bl :
  containers_are_consistent bl = true ->
  find book bl =
    Return (default (length (books_vector_ bl)) (std_find book (books_vector_ bl))).
Proof.
  intros H. unfold find. rewrite H; simpl.
  destruct (std_find book (books_vector_ bl)); [done|]. by apply size_consistent.
Qed.

(** [find] answers [size()] exactly for the books the list does not hold. *)
Lemma find_size_iff book bl :
  containers_are_consistent bl = true ->
  find book bl = size bl <-> ~ holds bl book.
Proof.
  intros H. rewrite find_consistent, size_consistent, holds_std_find by done.
  destruct (std_find book (books_vector_ bl)) as [i|] eqn:Hf; simpl.
  - apply std_find_Some in Hf as [Hi _]. split.
    + intros [= ->]. lia.
    + intros Hn. destruct Hn. done.
  - split; [|done]. intros _ [? ?]. done.
Qed.

(** ** [insert] and [remove], step by step *)

Lemma insert_consistent book offset bl :
  containers_are_consistent bl = true ->
  insert book offset bl =
    if length (books_vector_ bl) <? offset then (Throw InvalidOffsetException, bl)
    else if std_find book (books_vector_ bl) is Some _ then (Return tt, bl)
    else if capacity <=? books_array_size_ bl then (Throw CapacityExceededException, bl)
    else if containers_are_consistent (inserted book offset bl)
         then (Return tt, inserted book offset bl)
         else (Throw InvalidInternalStateException, inserted book offset bl).
Proof.
  intros H. unfold insert, bind, call.
  rewrite size_consistent by done.
  destruct (length (books_vector_ bl) <? offset); [done|].
  rewrite find_consistent by done.
  destruct (std_find book (books_vector_ bl)) as [i|] eqn:Hf; simpl;
    rewrite size_consistent by done.
  - apply std_find_Some in Hf as [Hi _].
    destruct (Nat.eqb_spec i (length (books_vector_ bl))); [lia|done].
  - rewrite Nat.eqb_refl; simpl.
    destruct (capacity <=? books_array_size_ bl); [done|].
    unfold set_dl_list, set_sl_list, set_vector, set_array; simpl.
    fold (inserted book offset bl).
    by destruct (containers_are_consistent (inserted book offset bl)).
Qed.

Lemma insert_inconsistent book offset bl :
  containers_are_consistent bl = false ->
  insert book offset bl = (Throw InvalidInternalStateException, bl).
Proof.
  intros H. unfold insert, bind, call. by rewrite size_inconsistent.
Qed.

Lemma remove_consistent offset bl :
  containers_are_consistent bl = true ->
  remove offset bl =
    if length (books_vector_ bl) <=? offset then (Return tt, bl)
    else if containers_are_consistent (removed offset bl)
         then (Return tt, removed offset bl)
         else (Throw InvalidInternalStateException, removed offset bl).
Proof.
  intros H. unfold remove, bind, call.
  rewrite size_consistent by done.
  destruct (length (books_vector_ bl) <=? offset); [done|].
  unfold set_dl_list, set_sl_list, set_vector, set_array; simpl.
  fold (removed offset bl).
  by destruct (containers_are_consistent (removed offset bl)).
Qed.

Lemma remove_inconsistent offset bl :
  containers_are_consistent bl = false ->
  remove offset bl = (Throw InvalidInternalStateException, bl).
Proof.
  intros H. unfold remove, bind, call. by rewrite size_inconsistent.
Qed.

(** ** The containers stay in lockstep *)

Lemma lockstep_lengths bl :
  in_lockstep bl ->
  length (books_vector_ bl) <= capacity
  /\ length (books_dl_list_ bl) = length (books_vector_ bl)
  /\ length (books_sl_list_ bl) = length (books_vector_ bl).
Proof.
  intros (Hcap & Hsz & Harr & -> & ->). split; [|done].
  unfold array_contents in Harr. rewrite <- Harr at 1.
  rewrite length_take. lia.
Qed.

Lemma empty_lockstep : in_lockstep empty_book_list.
Proof.
  unfold in_lockstep, array_contents; simpl.
  rewrite length_replicate. by rewrite take_0.
Qed.

Lemma inserted_lockstep book offset bl :
  in_lockstep bl ->
  offset <= length (books_vector_ bl) ->
  books_array_size_ bl < capacity ->
  in_lockstep (inserted book offset bl).
Proof.
  intros (Hcap & Hsz & Harr & Hdl & Hsl) Hoff Hroom.
  unfold in_lockstep, array_contents, inserted, vector_insert,
    list_insert_at, forward_list_insert_after in *; simpl.
  rewrite length_insert, array_shift_right_length.
  rewrite Hdl, Hsl, !splice_in_take_drop by lia.
  rewrite (array_insert_contents _ _ (books_vector_ bl)) by (done || lia).
  repeat split; try done.
  rewrite length_app, length_take; simpl. rewrite length_drop. lia.
Qed.

Lemma removed_lockstep offset bl :
  in_lockstep bl ->
  offset < length (books_vector_ bl) ->
  in_lockstep (removed offset bl).
Proof.
  intros Hl Hoff. destruct (lockstep_lengths bl Hl) as (Hle & _).
  destruct Hl as (Hcap & Hsz & Harr & Hdl & Hsl).
  unfold in_lockstep, array_contents, removed, vector_erase,
    list_erase_at, forward_list_erase_after in *; simpl.
  rewrite std_move_length.
  rewrite Hdl, Hsl, !splice_out_take_drop.
  rewrite <- Hcap at 2.
  rewrite (array_erase_contents _ _ (books_vector_ bl)) by (done || lia).
  repeat split; try done.
  rewrite length_app, length_take, length_drop. lia.
Qed.

Lemma swap_lockstep this rhs :
  in_lockstep this -> in_lockstep rhs ->
  in_lockstep (fst (swap this rhs)) /\ in_lockstep (snd (swap this rhs)).
Proof. intros H1 H2. split; [exact H2|exact H1]. Qed.

(** ** The tests [insert] and [remove] make before they write *)

Lemma size_Return bl n :
  size bl = Return n ->
  containers_are_consistent bl = true /\ n = length (books_vector_ bl).
Proof.
  unfold size. destruct (containers_are_consistent bl); simpl; [|done].
  by intros [= <-].
Qed.

(** C3. On a list of [n] books, [insert(book, offset)] with
    [offset > n] throws [InvalidOffsetException] and leaves the list as
    it was; with [offset <= n] it does not throw that exception. *)
Theorem insert_invalid_offset bl n book offset :
  size bl = Return n ->
  (n < offset -> insert book offset bl = (Throw InvalidOffsetException, bl))
  /\ (offset <= n -> fst (insert book offset bl) <> Throw InvalidOffsetException).
Proof.
  intros [Hc ->]%size_Return. rewrite insert_consistent by done.
  destruct (Nat.ltb_spec (length (books_vector_ bl)) offset).
  - split; [done|lia].
  - split; [lia|]. intros _.
    destruct (std_find book (books_vector_ bl)); [done|].
    destruct (capacity <=? books_array_size_ bl); [done|].
    by destruct (containers_are_consistent (inserted book offset bl)).
Qed.

(** C2. When the array is full ([books_array_size_] equals its
    capacity), inserting a book the list does not hold at an offset
    [<= size()] throws [CapacityExceededException] and leaves every
    data member as it was. *)
Theorem insert_full_capacity_fault bl n book offset :
  size bl = Return n ->
  books_array_size_ bl = capacity ->
  ~ holds bl book ->
  offset <= n ->
  insert book offset bl = (Throw CapacityExceededException, bl).
Proof.
  intros [Hc ->]%size_Return Hfull Hnew Hoff. rewrite insert_consistent by done.
  destruct (Nat.ltb_spec (length (books_vector_ bl)) offset); [lia|].
  destruct (std_find book (books_vector_ bl)) eqn:Hf.
  { destruct Hnew. apply holds_std_find. by rewrite Hf. }
  rewrite Hfull. by rewrite Nat.leb_refl.
Qed.

Lemma insert_held_book bl book offset :
  containers_are_consistent bl = true ->
  holds bl book ->
  insert book offset bl =
    if length (books_vector_ bl) <? offset
    then (Throw InvalidOffsetException, bl)
    else (Return tt, bl).
Proof.
  intros Hc [i Hi]%holds_std_find.
  rewrite insert_consistent by done. by rewrite Hi.
Qed.

(** C9. For a book the list already holds, [insert(book, offset)] with
    [offset > size()] throws [InvalidOffsetException]; it returns with
    nothing changed exactly for the offsets in [0 .. size()]. *)
Theorem insert_duplicate_offset_first bl n book offset :
  size bl = Return n ->
  holds bl book ->
  (n < offset -> insert book offset bl = (Throw InvalidOffsetException, bl))
  /\ (offset <= n -> insert book offset bl = (Return tt, bl))
  /\ (fst (insert book offset bl) = Return tt <-> offset <= n).
Proof.
  intros [Hc ->]%size_Return Hdup.
  rewrite insert_held_book by done.
  destruct (Nat.ltb_spec (length (books_vector_ bl)) offset).
  - split; [done|]. split; [lia|]. simpl. split; [done|lia].
  - split; [lia|]. split; [done|]. simpl. split; [lia|done].
Qed.

(** C10. When the array is full, inserting a book the list already
    holds at an offset [<= size()] returns with every data member as it
    was; no [CapacityExceededException] is thrown. *)
Theorem insert_duplicate_before_capacity bl n book offset :
  size bl = Return n ->
  books_array_size_ bl = capacity ->
  holds bl book ->
  offset <= n ->
  insert book offset bl = (Return tt, bl).
Proof.
  intros [Hc ->]%size_Return _ Hdup Hoff.
  rewrite insert_held_book by done.
  destruct (Nat.ltb_spec (length (books_vector_ bl)) offset); [lia|done].
Qed.

Section Reflexive.
(** [operator==] holds between a book and itself. *)
Hypothesis book_eqb_refl : forall a : Book, book_eqb a a = true.

Lemma consistent_walk_same v arr :
  take (length v) arr = v -> consistent_walk arr v v v = true.
Proof.
  revert arr; induction v as [|x v IH]; intros arr; simpl; [done|].
  destruct arr as [|a arr]; simpl; [done|].
  intros [= -> Hv]. unfold book_neqb. rewrite book_eqb_refl; simpl. by apply IH.
Qed.

Lemma lockstep_consistent bl :
  in_lockstep bl -> containers_are_consistent bl = true.
Proof.
  intros (Hcap & Hsz & Harr & Hdl & Hsl).
  unfold containers_are_consistent, books_sl_list_size.
  rewrite Hdl, Hsl, Hsz, Nat.eqb_refl; simpl.
  apply consistent_walk_same. unfold array_contents in Harr. by rewrite <- Hsz.
Qed.

(** On lists in lockstep no call ends in the internal-state exception:
    [insert] and [remove] reduce to their tests and one rewrite of the
    four containers. *)
Lemma insert_lockstep book offset bl :
  in_lockstep bl ->
  insert book offset bl =
    if length (books_vector_ bl) <? offset then (Throw InvalidOffsetException, bl)
    else if std_find book (books_vector_ bl) is Some _ then (Return tt, bl)
    else if capacity <=? length (books_vector_ bl)
         then (Throw CapacityExceededException, bl)
         else (Return tt, inserted book offset bl).
Proof.
  intros Hl. rewrite insert_consistent by by apply lockstep_consistent.
  destruct (Nat.ltb_spec (length (books_vector_ bl)) offset); [done|].
  destruct (std_find book (books_vector_ bl)); [done|].
  destruct Hl as (Hcap & Hsz & Hrest). rewrite Hsz.
  destruct (Nat.leb_spec capacity (length (books_vector_ bl))); [done|].
  rewrite lockstep_consistent; [done|].
  apply inserted_lockstep; [done|lia|lia].
Qed.

Lemma remove_lockstep offset bl :
  in_lockstep bl ->
  remove offset bl =
    if length (books_vector_ bl) <=? offset then (Return tt, bl)
    else (Return tt, removed offset bl).
Proof.
  intros Hl. rewrite remove_consistent by by apply lockstep_consistent.
  destruct (Nat.leb_spec (length (books_vector_ bl)) offset); [done|].
  rewrite lockstep_consistent; [done|]. by apply removed_lockstep.
Qed.

Lemma insert_preserves book offset bl :
  in_lockstep bl -> in_lockstep (snd (insert book offset bl)).
Proof.
  intros Hl. rewrite insert_lockstep by done.
  destruct (Nat.ltb_spec (length (books_vector_ bl)) offset); [done|].
  destruct (std_find book (books_vector_ bl)); [done|].
  destruct (Nat.leb_spec capacity (length (books_vector_ bl))); [done|].
  simpl. apply inserted_lockstep; [done|lia|]. destruct Hl as (_ & -> & _). lia.
Qed.

Lemma insert_at_lockstep book position bl :
  in_lockstep bl ->
  insert_at book position bl =
    insert book (match position with
                 | TOP => 0
                 | BOTTOM => length (books_vector_ bl)
                 end) bl.
Proof.
  intros Hl. destruct position; simpl; [done|].
  unfold bind, call. by rewrite size_consistent by by apply lockstep_consistent.
Qed.

Lemma insert_at_preserves book position bl :
  in_lockstep bl -> in_lockstep (snd (insert_at book position bl)).
Proof.
  intros Hl. rewrite insert_at_lockstep by done. by apply insert_preserves.
Qed.

Lemma remove_preserves offset bl :
  in_lockstep bl -> in_lockstep (snd (remove offset bl)).
Proof.
  intros Hl. rewrite remove_lockstep by done.
  destruct (Nat.leb_spec (length (books_vector_ bl)) offset); [done|].
  by apply removed_lockstep.
Qed.

Lemma remove_book_lockstep book bl :
  in_lockstep bl ->
  remove_book book bl =
    remove (default (length (books_vector_ bl)) (std_find book (books_vector_ bl))) bl.
Proof.
  intros Hl. unfold remove_book, bind, call.
  by rewrite find_consistent by by apply lockstep_consistent.
Qed.

Lemma remove_book_preserves book bl :
  in_lockstep bl -> in_lockstep (snd (remove_book book bl)).
Proof.
  intros Hl. rewrite remove_book_lockstep by done. by apply remove_preserves.
Qed.

Lemma bind_preserves {A B} (m : M A) (k : A -> M B) :
  preserves m -> (forall a, preserves (k a)) -> preserves (bind m k).
Proof.
  intros Hm Hk bl Hl. unfold bind. specialize (Hm bl Hl).
  destruct (m bl) as [[a|e] bl1]; simpl in *; [by apply Hk|done].
Qed.

Lemma call_preserves {A} (f : BookList -> outcome A) : preserves (call f).
Proof. by intros bl Hl. Qed.

Lemma gets_preserves {A} (f : BookList -> A) : preserves (gets f).
Proof. by intros bl Hl. Qed.

Lemma ret_preserves {A} (a : A) : preserves (ret a).
Proof. by intros bl Hl. Qed.

Lemma throw_preserves {A} (e : exn) : preserves (throw e : M A).
Proof. by intros bl Hl. Qed.

Lemma checkpoint_preserves :
  preserves (bind (gets containers_are_consistent)
                  (fun ok => if negb ok then throw InvalidInternalStateException
                             else ret tt)).
Proof.
  apply bind_preserves; [apply gets_preserves|].
  intros []; [apply ret_preserves|apply throw_preserves].
Qed.

Lemma move_to_top_preserves book : preserves (move_to_top book).
Proof.
  unfold move_to_top.
  apply bind_preserves; [apply call_preserves|intros pos].
  apply bind_preserves; [apply call_preserves|intros sz].
  apply bind_preserves; [|intros _; apply checkpoint_preserves].
  destruct (negb (pos =? sz)); [|apply ret_preserves].
  apply bind_preserves; [intros bl; apply remove_book_preserves|].
  intros _ bl. apply insert_preserves.
Qed.

Lemma for_each_preserves books (body : Book -> M unit) :
  (forall book, preserves (body book)) -> preserves (for_each books body).
Proof.
  intros Hbody. induction books as [|book rest IH]; simpl.
  - apply ret_preserves.
  - apply bind_preserves; [apply Hbody|by intros _].
Qed.

Lemma concatenate_books_preserves rhs : preserves (concatenate_books rhs).
Proof.
  unfold concatenate_books.
  apply bind_preserves; [|intros _; apply checkpoint_preserves].
  apply for_each_preserves. intros book bl. apply insert_at_preserves.
Qed.

(** X18. [list += list], a list appended to itself: every book walked
    is found in the list, nothing is written, and the call returns. *)
Lemma concatenate_self bl :
  in_lockstep bl -> concatenate bl bl = (Return tt, bl).
Proof.
  intros Hl. pose proof (lockstep_consistent bl Hl) as Hc.
  unfold concatenate, concatenate_books.
  assert (forall books, Forall (fun book => book ∈ books_vector_ bl) books ->
            for_each books (fun book => insert_at book BOTTOM) bl = (Return tt, bl))
    as Hwalk.
  { induction 1 as [|book rest [i Hi]%list_elem_of_lookup _ IH];
      cbn [for_each]; [done|].
    unfold bind at 1. rewrite insert_at_lockstep by done.
    rewrite insert_held_book, Nat.ltb_irrefl; [done|done|].
    by exists i, book. }
  unfold bind. rewrite Hwalk by (apply Forall_forall; auto).
  unfold gets. by rewrite Hc.
Qed.

Lemma extraction_loop_preserves fuel count stream bl o bl' :
  in_lockstep bl ->
  extraction_loop fuel count stream bl = Some (o, bl') ->
  in_lockstep bl'.
Proof.
  revert stream bl; induction fuel as [|fuel IH]; intros stream bl Hl;
    cbn [extraction_loop]; [done|].
  destruct (negb (count =? books_sl_list_size bl)); [|by intros [= <- <-]].
  destruct (book_extraction (ignore 4 stream) book_default) as [stream' temp_book].
  pose proof (insert_at_preserves temp_book BOTTOM bl Hl) as Hins.
  destruct (insert_at temp_book BOTTOM bl) as [[[]|e] bl1]; simpl in Hins.
  - by apply IH.
  - by intros [= <- <-].
Qed.

Lemma operator_extraction_preserves fuel stream bl o bl' :
  in_lockstep bl ->
  operator_extraction fuel stream bl = Some (o, bl') ->
  in_lockstep bl'.
Proof.
  intros Hl. unfold operator_extraction.
  destruct (negb (containers_are_consistent bl)); [by intros [= <- <-]|].
  destruct (extract_size_t stream) as [stream' count].
  by apply extraction_loop_preserves.
Qed.

Lemma reachable_lockstep bl : reachable bl -> in_lockstep bl.
Proof.
  induction 1 as [ | init_list | bl book offset _ IH | bl book position _ IH
                 | bl offset _ IH | bl book _ IH | bl book _ IH | bl rhs _ IH
                 | bl rhs _ IH _ _ | bl rhs _ IH1 _ IH2 | bl rhs _ IH1 _ IH2
                 | bl fuel stream o bl' _ IH Hex ].
  - apply empty_lockstep.
  - apply concatenate_books_preserves, empty_lockstep.
  - by apply insert_preserves.
  - by apply insert_at_preserves.
  - by apply remove_preserves.
  - by apply remove_book_preserves.
  - by apply move_to_top_preserves.
  - by apply concatenate_books_preserves.
  - by apply concatenate_books_preserves.
  - by apply swap_lockstep.
  - by apply swap_lockstep.
  - by eapply operator_extraction_preserves.
Qed.

(** C1. Every list a program can reach from the constructors through
    insert, remove, move_to_top, operator+=, swap and operator>> has its
    four containers in lockstep -- the array's live slots, the vector,
    the doubly linked list and the singly linked list are the same
    sequence of books -- and [containers_are_consistent()] answers true
    on it. *)
Theorem reachable_containers_consistent bl :
  reachable bl ->
  containers_are_consistent bl = true
  /\ length (books_vector_ bl) = books_array_size_ bl
  /\ length (books_dl_list_ bl) = books_array_size_ bl
  /\ books_sl_list_size bl = books_array_size_ bl
  /\ array_contents bl = books_vector_ bl
  /\ books_dl_list_ bl = books_vector_ bl
  /\ books_sl_list_ bl = books_vector_ bl.
Proof.
  intros Hr. apply reachable_lockstep in Hr.
  split; [by apply lockstep_consistent|].
  destruct Hr as (_ & Hsz & Harr & Hdl & Hsl).
  unfold books_sl_list_size. by rewrite Hdl, Hsl, Hsz.
Qed.

(** C8. On a list whose containers are in lockstep and hold [n] books,
    [remove(offset)] with [offset >= n] returns with every data member
    as it was.  With [offset < n] it returns, and the list it leaves is
    the old one without the book at [offset]: the books before it and
    the books after it, in their old order, in all four containers. *)
Theorem remove_at_offset bl offset :
  in_lockstep bl ->
  let n := length (books_vector_ bl) in
  size bl = Return n
  /\ (n <= offset -> remove offset bl = (Return tt, bl))
  /\ (offset < n ->
      exists before book after bl',
        books_vector_ bl = before ++ book :: after
        /\ length before = offset
        /\ remove offset bl = (Return tt, bl')
        /\ books_array_size_ bl' = n - 1
        /\ array_contents bl' = before ++ after
        /\ books_vector_ bl' = before ++ after
        /\ books_dl_list_ bl' = before ++ after
        /\ books_sl_list_ bl' = before ++ after).
Proof.
  intros Hl n. subst n.
  split; [by apply size_consistent, lockstep_consistent|].
  rewrite remove_lockstep by done.
  destruct (Nat.leb_spec (length (books_vector_ bl)) offset) as [Hge|Hlt].
  - split; [done|lia].
  - split; [lia|]. intros _.
    destruct (lookup_lt_is_Some_2 (books_vector_ bl) offset Hlt) as [book Hbook].
    exists (take offset (books_vector_ bl)), book,
           (drop (S offset) (books_vector_ bl)), (removed offset bl).
    pose proof (removed_lockstep offset bl Hl Hlt) as (_ & Hsz' & Harr' & Hdl' & Hsl').
    destruct Hl as (_ & Hsz & _).
    assert (books_vector_ (removed offset bl)
            = take offset (books_vector_ bl) ++ drop (S offset) (books_vector_ bl))
      as Hvec by done.
    rewrite Hdl', Hsl', Harr', Hvec.
    split; [by rewrite <- (take_drop_middle _ _ _ Hbook) at 1|].
    split; [rewrite length_take; lia|].
    split; [done|]. split; [simpl; lia|done].
Qed.

End Reflexive.

Section Decides.
(** [operator==] decides whether two books are the same. *)
Hypothesis book_eqb_spec : forall a b : Book, book_eqb a b = true <-> a = b.

Lemma book_eqb_spec_refl (a : Book) : book_eqb a a = true.
Proof. by apply book_eqb_spec. Qed.

Lemma holds_elem_of bl book : holds bl book <-> book ∈ books_vector_ bl.
Proof.
  rewrite list_elem_of_lookup. split.
  - intros (i & x & Hx & ->%book_eqb_spec). by exists i.
  - intros [i Hi]. exists i, book. split; [done|]. by apply book_eqb_spec.
Qed.

Lemma duplicate_free_NoDup bl : duplicate_free bl <-> NoDup (books_vector_ bl).
Proof.
  rewrite NoDup_alt. unfold duplicate_free. split.
  - intros H i j x Hi Hj. apply (H i j x x Hi Hj). by apply book_eqb_spec.
  - intros H i j x y Hi Hj ->%book_eqb_spec. by apply (H i j y).
Qed.

Lemma insert_duplicate_free book offset bl :
  duplicate_free bl -> duplicate_free (snd (insert book offset bl)).
Proof.
  intros Hnd.
  destruct (containers_are_consistent bl) eqn:Hc;
    [|by rewrite insert_inconsistent].
  rewrite insert_consistent by done.
  destruct (length (books_vector_ bl) <? offset); [done|].
  destruct (std_find book (books_vector_ bl)) eqn:Hf; [done|].
  destruct (capacity <=? books_array_size_ bl); [done|].
  assert (duplicate_free (inserted book offset bl)) as Hins.
  { apply duplicate_free_NoDup; simpl. unfold vector_insert.
    apply duplicate_free_NoDup in Hnd.
    rewrite <- Permutation_middle, take_drop. apply NoDup_cons. split; [|done].
    intros Hin%holds_elem_of%holds_std_find. rewrite Hf in Hin. by destruct Hin. }
  by destruct (containers_are_consistent (inserted book offset bl)).
Qed.

(** C4. Inserting a book the list already holds, at an offset
    [<= size()], returns with every data member as it was.  And a run
    of [insert] calls on a list in lockstep that holds no book twice
    leaves a list in lockstep that holds no book twice. *)
Theorem insert_keeps_duplicate_free :
  (forall bl n book offset,
      size bl = Return n -> holds bl book -> offset <= n ->
      insert book offset bl = (Return tt, bl))
  /\ (forall bl calls,
        in_lockstep bl -> duplicate_free bl ->
        in_lockstep (insert_all calls bl) /\ duplicate_free (insert_all calls bl)).
Proof.
  split.
  - intros bl n book offset [Hc ->]%size_Return Hdup Hoff.
    rewrite insert_held_book by done.
    destruct (Nat.ltb_spec (length (books_vector_ bl)) offset); [lia|done].
  - intros bl calls; revert bl.
    induction calls as [|[book offset] calls IH]; intros bl Hl Hnd; simpl; [done|].
    apply IH.
    + apply insert_preserves; [apply book_eqb_spec_refl|done].
    + by apply insert_duplicate_free.
Qed.

End Decides.

(** ** [compare] and the relational operators *)

Lemma compare_consistent this other :
  containers_are_consistent this = true ->
  containers_are_consistent other = true ->
  compare this other =
    Return (compare_value (books_vector_ this) (books_vector_ other)).
Proof.
  intros H1 H2. unfold compare, compare_value. rewrite H1, H2; simpl.
  rewrite !size_consistent by done.
  destruct (Nat.eqb_spec (length (books_vector_ this)) (length (books_vector_ other)))
    as [Heq|Hne]; simpl.
  - rewrite Heq, Nat.ltb_irrefl. done.
  - destruct (length (books_vector_ this) <? length (books_vector_ other)); [done|].
    by destruct (length (books_vector_ other) <? length (books_vector_ this)).
Qed.

Lemma compare_walk_range v w :
  compare_walk v w = (-1)%Z \/ compare_walk v w = 0%Z \/ compare_walk v w = 1%Z.
Proof.
  revert w; induction v as [|x v IH]; intros [|y w]; simpl; auto.
  destruct (book_ltb x y); auto. destruct (book_gtb x y); auto.
Qed.

Section StrictTotalOrder.
(** [operator<] is a strict total order on books and [operator>] is
    its converse. *)
Hypothesis book_gtb_ltb : forall a b : Book, book_gtb a b = book_ltb b a.
Hypothesis book_ltb_irrefl : forall a : Book, book_ltb a a = false.
Hypothesis book_ltb_trans :
  forall a b c : Book, book_ltb a b = true -> book_ltb b c = true -> book_ltb a c = true.
Hypothesis book_ltb_connected :
  forall a b : Book, book_ltb a b = false -> book_ltb b a = false -> a = b.

Lemma book_ltb_asym (a b : Book) : book_ltb a b = true -> book_ltb b a = false.
Proof.
  intros Hab. destruct (book_ltb b a) eqn:Hba; [|done].
  by rewrite <- (book_ltb_irrefl a), (book_ltb_trans a b a).
Qed.

Lemma compare_walk_same v : compare_walk v v = 0%Z.
Proof.
  induction v as [|x v IH]; simpl; [done|].
  by rewrite book_gtb_ltb, book_ltb_irrefl.
Qed.

(** Behind a common prefix, the first pair of different books decides. *)
Lemma compare_walk_first_difference prefix x y this_rest other_rest :
  x <> y ->
  compare_walk (prefix ++ x :: this_rest) (prefix ++ y :: other_rest)
  = (if book_ltb x y then (-1)%Z else 1%Z)
  /\ (book_ltb x y = false -> book_gtb x y = true).
Proof.
  intros Hne.
  assert (book_ltb x y = false -> book_gtb x y = true) as Hgt.
  { intros Hxy. rewrite book_gtb_ltb. destruct (book_ltb y x) eqn:Hyx; [done|].
    destruct Hne. by apply book_ltb_connected. }
  split; [|done].
  induction prefix as [|a prefix IH]; simpl.
  - destruct (book_ltb x y); [done|]. by rewrite Hgt.
  - by rewrite book_gtb_ltb, book_ltb_irrefl.
Qed.

Lemma compare_walk_zero v w :
  length v = length w -> compare_walk v w = 0%Z -> v = w.
Proof.
  revert w; induction v as [|x v IH]; intros [|y w]; simpl; try done.
  intros [= Hlen]. rewrite book_gtb_ltb.
  destruct (book_ltb x y) eqn:Hxy; [done|].
  destruct (book_ltb y x) eqn:Hyx; [done|].
  intros Hw. f_equal; [by apply book_ltb_connected|by apply IH].
Qed.

Lemma compare_walk_antisym v w :
  length v = length w -> compare_walk w v = (- compare_walk v w)%Z.
Proof.
  revert w; induction v as [|x v IH]; intros [|y w]; simpl; try done.
  intros [= Hlen]. rewrite !book_gtb_ltb.
  destruct (book_ltb x y) eqn:Hxy.
  - by rewrite (book_ltb_asym x y).
  - destruct (book_ltb y x) eqn:Hyx; [done|]. by apply IH.
Qed.

Lemma compare_walk_trans u v w :
  length u = length v -> length v = length w ->
  (compare_walk u v <= 0)%Z -> (compare_walk v w <= 0)%Z ->
  (compare_walk u w <= 0)%Z.
Proof.
  revert v w; induction u as [|a u IH]; intros [|b v] [|c w]; simpl; try done.
  intros [= Huv] [= Hvw]. rewrite !book_gtb_ltb.
  destruct (book_ltb a b) eqn:Hab.
  - intros _. destruct (book_ltb b c) eqn:Hbc.
    + intros _. by rewrite (book_ltb_trans a b c).
    + destruct (book_ltb c b) eqn:Hcb; [lia|]. intros _.
      rewrite <- (book_ltb_connected b c Hbc Hcb). by rewrite Hab.
  - destruct (book_ltb b a) eqn:Hba; [lia|].
    rewrite (book_ltb_connected a b Hab Hba). intros Huv'.
    destruct (book_ltb b c) eqn:Hbc; [done|].
    destruct (book_ltb c b) eqn:Hcb; [lia|]. by apply IH.
Qed.

Lemma compare_value_shorter v w : length v < length w -> compare_value v w = (-1)%Z.
Proof.
  intros H. unfold compare_value. by destruct (Nat.ltb_spec (length v) (length w)); [|lia].
Qed.

Lemma compare_value_longer v w : length w < length v -> compare_value v w = 1%Z.
Proof.
  intros H. unfold compare_value.
  destruct (Nat.ltb_spec (length v) (length w)); [lia|].
  by destruct (Nat.ltb_spec (length w) (length v)); [|lia].
Qed.

Lemma compare_value_same_length v w :
  length v = length w -> compare_value v w = compare_walk v w.
Proof.
  intros H. unfold compare_value. rewrite H. by rewrite Nat.ltb_irrefl.
Qed.

Lemma compare_value_cases v w :
  (length v < length w /\ compare_value v w = (-1)%Z)
  \/ (length w < length v /\ compare_value v w = 1%Z)
  \/ (length v = length w /\ compare_value v w = compare_walk v w).
Proof.
  destruct (Nat.lt_trichotomy (length v) (length w)) as [H|[H|H]].
  - left. by split; [|apply compare_value_shorter].
  - right; right. by split; [|apply compare_value_same_length].
  - right; left. by split; [|apply compare_value_longer].
Qed.

Lemma compare_value_zero v w : compare_value v w = 0%Z <-> v = w.
Proof.
  split.
  - destruct (compare_value_cases v w) as [[? ->]|[[? ->]|[? ->]]]; try done.
    by apply compare_walk_zero.
  - intros ->. rewrite compare_value_same_length by done. apply compare_walk_same.
Qed.

Lemma compare_value_antisym v w : compare_value w v = (- compare_value v w)%Z.
Proof.
  destruct (compare_value_cases v w) as [[? ->]|[[? ->]|[? ->]]].
  - by rewrite compare_value_longer.
  - by rewrite compare_value_shorter.
  - rewrite compare_value_same_length by done. by apply compare_walk_antisym.
Qed.

Lemma compare_value_trans u v w :
  (compare_value u v <= 0)%Z -> (compare_value v w <= 0)%Z ->
  (compare_value u w <= 0)%Z.
Proof.
  destruct (compare_value_cases u v) as [[? ->]|[[? ->]|[? ->]]];
  destruct (compare_value_cases v w) as [[? ->]|[[? ->]|[? ->]]];
  intros Huv Hvw; try lia;
  try (rewrite compare_value_shorter by lia; lia).
  rewrite compare_value_same_length by lia.
  by apply (compare_walk_trans u v w).
Qed.

(** C5. On two consistent lists [compare] returns -1 when this list is
    the shorter one and 1 when it is the longer one.  On equal lengths
    it returns the order of the first pair of books that differ (-1 when
    this list's book is the smaller, 1 when it is the greater) and 0
    when the lists hold the same books.  Each of [==], [!=], [<], [<=],
    [>], [>=] returns that value compared with 0.  The order is total:
    swapping the operands negates the value, 0 is returned for equal
    sequences only, and [<=] is transitive. *)
Theorem compare_total_order this other :
  containers_are_consistent this = true ->
  containers_are_consistent other = true ->
  let n := length (books_vector_ this) in
  let m := length (books_vector_ other) in
  exists c,
    compare this other = Return c
    /\ (n < m -> c = (-1)%Z)
    /\ (m < n -> c = 1%Z)
    /\ (n = m ->
        forall prefix x y this_rest other_rest,
          books_vector_ this = prefix ++ x :: this_rest ->
          books_vector_ other = prefix ++ y :: other_rest ->
          x <> y ->
          (book_ltb x y = true /\ c = (-1)%Z) \/ (book_gtb x y = true /\ c = 1%Z))
    /\ (c = 0%Z <-> books_vector_ this = books_vector_ other)
    /\ operator_eq this other = Return (c =? 0)%Z
    /\ operator_ne this other = Return (negb (c =? 0)%Z)
    /\ operator_lt this other = Return (c <? 0)%Z
    /\ operator_le this other = Return (c <=? 0)%Z
    /\ operator_gt this other = Return (c >? 0)%Z
    /\ operator_ge this other = Return (c >=? 0)%Z
    /\ compare other this = Return (- c)%Z
    /\ (forall third c',
          containers_are_consistent third = true ->
          compare other third = Return c' ->
          (c <= 0)%Z -> (c' <= 0)%Z ->
          exists c'', compare this third = Return c'' /\ (c'' <= 0)%Z).
Proof.
  intros H1 H2 n m. subst n m.
  exists (compare_value (books_vector_ this) (books_vector_ other)).
  pose proof (compare_consistent this other H1 H2) as Hcmp.
  split; [done|].
  split; [apply compare_value_shorter|].
  split; [apply compare_value_longer|].
  split.
  { intros Hlen prefix x y this_rest other_rest Hv Hw Hne.
    rewrite compare_value_same_length by done. rewrite Hv, Hw.
    destruct (compare_walk_first_difference prefix x y this_rest other_rest Hne)
      as [-> Hgt].
    destruct (book_ltb x y); [by left|right]. by split; [apply Hgt|]. }
  split; [apply compare_value_zero|].
  unfold operator_eq, operator_ne, operator_lt, operator_le, operator_gt,
    operator_ge, on_compare.
  rewrite Hcmp. do 6 (split; [done|]).
  split.
  { rewrite compare_consistent by done. by rewrite compare_value_antisym. }
  intros third c' H3. rewrite !compare_consistent by done.
  intros [= <-] Hc Hc'. eexists; split; [done|].
  by apply (compare_value_trans _ (books_vector_ other)).
Qed.

End StrictTotalOrder.

(** ** The loop of [operator>>] *)




(** C7. The loop of [operator>>] runs until the list holds [count]
    books in all, whatever it held before.  On a consistent list that
    already holds as many books as the stream declares, the operator
    returns after reading the count and one character, and inserts none
    of the declared elements. *)
Theorem extraction_stops_at_list_size fuel stream stream' bl :
  containers_are_consistent bl = true ->
  extract_size_t stream = (stream', length (books_vector_ bl)) ->
  operator_extraction (S fuel) stream bl = Some (Return (ignore 1 stream'), bl).
Proof.
  intros Hc Hcount. unfold operator_extraction. rewrite Hc, Hcount; simpl.
  destruct (consistent_sizes bl Hc) as (_ & _ & Hsl).
  unfold books_sl_list_size. by rewrite Hsl, Nat.eqb_refl.
Qed.


(** What [operator<<] writes for a list of one book. *)
Lemma insertion_of_single_book bl book :
  containers_are_consistent bl = true ->
  books_sl_list_ bl = [book] ->
  operator_insertion EmptyString bl
  = Return ("1" ++ String "010" "    0:  " ++ book_insertion book
                ++ String "010" EmptyString)%string.
Proof.
  intros Hc Hsl. unfold operator_insertion. rewrite Hc, size_consistent by done.
  destruct (consistent_sizes bl Hc) as (_ & _ & Hlen).
  rewrite <- Hlen, Hsl. reflexivity.
Qed.

(** Reading such a text into an empty list: after the count, the line
    break and four more characters are skipped, and the book's own
    extraction is handed the text from the label's digit on. *)
Lemma extraction_starts_inside_label fuel text :
  operator_extraction (S fuel)
    (Istream ("1" ++ String "010" "    0:  " ++ text)%string true) empty_book_list
  = let '(stream, temp_book) :=
      book_extraction (Istream ("0:  " ++ text)%string true) book_default in
    match insert_at temp_book BOTTOM empty_book_list with
    | (Return _, book_list') => extraction_loop fuel 1 stream book_list'
    | (Throw e, book_list') => Some (Throw e, book_list')
    end.
Proof. reflexivity. Qed.

(** ** Further properties of the member functions *)

Lemma std_find_first book before x after :
  Forall (fun y => book_eqb y book = false) before ->
  book_eqb x book = true ->
  std_find book (before ++ x :: after) = Some (length before).
Proof.
  intros Hbefore Hx. induction Hbefore as [|y before Hy _ IH]; simpl.
  - by rewrite Hx.
  - by rewrite Hy, IH.
Qed.

Lemma std_find_before book v i j y :
  std_find book v = Some i -> j < i -> v !! j = Some y -> book_eqb y book = false.
Proof.
  revert i j; induction v as [|x v IH]; intros i j; simpl; [done|].
  destruct (book_eqb x book) eqn:Hx.
  - intros [= <-]. lia.
  - destruct (std_find book v) as [k|]; simpl; [|done].
    intros [= <-] Hj. destruct j as [|j]; simpl.
    + by intros [= <-].
    + apply (IH k j eq_refl). lia.
Qed.

(** X1. On a consistent list [find(book)] returns the offset of the
    first element that compares equal to [book]: no element before it
    does.  When no element does, it returns [size()]. *)
Theorem find_first_match bl book :
  containers_are_consistent bl = true ->
  exists i,
    find book bl = Return i
    /\ i <= length (books_vector_ bl)
    /\ (forall j y, j < i -> books_vector_ bl !! j = Some y -> book_eqb y book = false)
    /\ (i < length (books_vector_ bl) ->
        exists x, books_vector_ bl !! i = Some x /\ book_eqb x book = true).
Proof.
  intros Hc. rewrite find_consistent by done.
  destruct (std_find book (books_vector_ bl)) as [i|] eqn:Hf; simpl.
  - exists i. destruct (std_find_Some _ _ _ Hf) as [Hi Hx].
    split; [done|]. split; [lia|]. split; [|done].
    intros j y. by apply std_find_before.
  - exists (length (books_vector_ bl)). split; [done|]. split; [done|].
    split; [|lia]. intros j y _. by apply std_find_None.
Qed.

Lemma find_default_index (i n : nat) : default n (Some i) = i.
Proof. done. Qed.

Lemma insert_at_offset book position bl :
  insert_at book position bl =
    insert book (match position with
                 | TOP => 0
                 | BOTTOM => length (books_vector_ bl)
                 end) bl.
Proof.
  destruct position; simpl; [done|]. unfold bind, call.
  destruct (containers_are_consistent bl) eqn:Hc.
  - by rewrite size_consistent.
  - by rewrite size_inconsistent, insert_inconsistent.
Qed.

(** X2. [insert(book, Position::TOP)] is [insert(book, 0)] and
    [insert(book, Position::BOTTOM)] is [insert(book, n)] for the
    number [n] of books in the list, on every list; neither throws
    [InvalidOffsetException]. *)
Theorem insert_at_top_bottom bl book position :
  insert_at book TOP bl = insert book 0 bl
  /\ insert_at book BOTTOM bl = insert book (length (books_vector_ bl)) bl
  /\ fst (insert_at book position bl) <> Throw InvalidOffsetException.
Proof.
  split; [done|]. split; [apply (insert_at_offset book BOTTOM)|].
  rewrite insert_at_offset.
  destruct (containers_are_consistent bl) eqn:Hc; [|by rewrite insert_inconsistent].
  rewrite insert_consistent by done.
  destruct (Nat.ltb_spec (length (books_vector_ bl))
              (match position with TOP => 0 | BOTTOM => length (books_vector_ bl) end));
    [destruct position; lia|].
  destruct (std_find book (books_vector_ bl)); [done|].
  destruct (capacity <=? books_array_size_ bl); [done|].
  by destruct (containers_are_consistent (inserted book _ bl)).
Qed.

Lemma remove_book_inconsistent book bl :
  containers_are_consistent bl = false ->
  remove_book book bl = (Throw InvalidInternalStateException, bl).
Proof. intros Hc. unfold remove_book, bind, call, find. by rewrite Hc. Qed.

Lemma concatenate_books_inconsistent rhs bl :
  containers_are_consistent bl = false ->
  concatenate_books rhs bl = (Throw InvalidInternalStateException, bl).
Proof.
  intros Hc. unfold concatenate_books, bind. destruct rhs as [|book rest]; simpl.
  - unfold gets. by rewrite Hc.
  - unfold bind, call. by rewrite size_inconsistent.
Qed.

(** X3. On a list whose containers disagree, every member function
    that checks them throws [InvalidInternalStateException], and the
    mutators leave the list as it is. *)
Theorem inconsistent_list_throws bl other book offset position rhs stream text fuel :
  containers_are_consistent bl = false ->
  size bl = Throw InvalidInternalStateException
  /\ find book bl = Throw InvalidInternalStateException
  /\ insert book offset bl = (Throw InvalidInternalStateException, bl)
  /\ insert_at book position bl = (Throw InvalidInternalStateException, bl)
  /\ remove offset bl = (Throw InvalidInternalStateException, bl)
  /\ remove_book book bl = (Throw InvalidInternalStateException, bl)
  /\ move_to_top book bl = (Throw InvalidInternalStateException, bl)
  /\ concatenate_books rhs bl = (Throw InvalidInternalStateException, bl)
  /\ compare bl other = Throw InvalidInternalStateException
  /\ compare other bl = Throw InvalidInternalStateException
  /\ operator_insertion text bl = Throw InvalidInternalStateException
  /\ operator_extraction fuel stream bl
     = Some (Throw InvalidInternalStateException, bl).
Proof.
  intros Hc.
  split; [by apply size_inconsistent|].
  split; [unfold find; by rewrite Hc|].
  split; [by apply insert_inconsistent|].
  split; [rewrite insert_at_offset; by apply insert_inconsistent|].
  split; [by apply remove_inconsistent|].
  split; [by apply remove_book_inconsistent|].
  split; [unfold move_to_top, bind, call, find; by rewrite Hc|].
  split; [by apply concatenate_books_inconsistent|].
  split; [unfold compare; by rewrite Hc|].
  split; [unfold compare; rewrite Hc; by destruct (containers_are_consistent other)|].
  split; [unfold operator_insertion; by rewrite Hc|].
  unfold operator_extraction. by rewrite Hc.
Qed.

(** *** What is already in the list stays where it is *)






(** *** The text of a list *)

Lemma string_append_assoc (a b c : string) :
  ((a ++ b) ++ c = a ++ b ++ c)%string.
Proof. induction a as [|x a IH]; simpl; [done|]. by rewrite IH. Qed.

Lemma put_books_append count books stream :
  put_books count books stream
  = (stream ++ put_books count books EmptyString)%string.
Proof.
  revert count stream; induction books as [|book rest IH]; intros count stream; simpl.
  - clear. induction stream as [|x stream IH]; simpl; [done|]. by rewrite <- IH.
  - rewrite IH. rewrite (IH _ (String _ _)). by rewrite string_append_assoc.
Qed.

Lemma operator_insertion_consistent stream bl :
  containers_are_consistent bl = true ->
  operator_insertion stream bl
  = Return (stream ++ serialized (length (books_vector_ bl)) (books_sl_list_ bl))%string.
Proof.
  intros Hc. unfold operator_insertion, serialized. rewrite Hc, size_consistent by done.
  cbn [negb]. rewrite put_books_append. by rewrite !string_append_assoc.
Qed.

(** X6. [operator<<] only appends: on a consistent list the stream
    holds, after the call, what it held before followed by the text the
    operator writes into an empty stream. *)
Theorem insertion_appends stream bl :
  containers_are_consistent bl = true ->
  exists text,
    operator_insertion EmptyString bl = Return text
    /\ operator_insertion stream bl = Return (stream ++ text)%string.
Proof.
  intros Hc. exists (serialized (length (books_vector_ bl)) (books_sl_list_ bl)).
  by rewrite !operator_insertion_consistent.
Qed.

Lemma to_uint_nonnil n : Nat.to_uint n <> Decimal.Nil.
Proof.
  rewrite <- (DecimalNat.Unsigned.of_to n) at 1.
  rewrite DecimalNat.Unsigned.to_of. apply DecimalFacts.unorm_nonnil.
Qed.

Lemma get_digits_uint d acc c rest :
  isdigit c = false ->
  get_digits acc (NilEmpty.string_of_uint d ++ String c rest)
  = (Nat.of_uint_acc d acc, String c rest).
Proof.
  intros Hc. revert acc; induction d as [|d IH|d IH|d IH|d IH|d IH|d IH|d IH|d IH|d IH|d IH];
    intros acc; cbn [NilEmpty.string_of_uint String.append get_digits Nat.of_uint_acc];
    [by rewrite Hc|..];
    (change (isdigit _) with true; cbn match; rewrite IH, Nat.tail_mul_spec;
     f_equal; f_equal; generalize (10 * acc); intros m; simpl; lia).
Qed.

Lemma string_of_uint_head d :
  d <> Decimal.Nil ->
  NilZero.string_of_uint d = NilEmpty.string_of_uint d
  /\ exists c0 s0, NilEmpty.string_of_uint d = String c0 s0
                   /\ isdigit c0 = true /\ isspace c0 = false.
Proof. destruct d; intros Hd; try done; (split; [done|]); by eexists _, _. Qed.

(** The count [operator<<] writes is the count [operator>>] reads. *)
Lemma extract_size_t_put_nat n c rest :
  isdigit c = false ->
  extract_size_t (Istream (put_nat n ++ String c rest) true)
  = (Istream (String c rest) true, n).
Proof.
  intros Hc. unfold extract_size_t, put_nat; cbn [good negb rdbuf].
  destruct (string_of_uint_head _ (to_uint_nonnil n)) as (-> & c0 & s0 & Hs & Hd & Hsp).
  pose proof (get_digits_uint (Nat.to_uint n) 0 c rest Hc) as Hget.
  rewrite Hs in *. cbn [String.append skipws] in *. rewrite Hsp, Hd, Hget.
  cbn [at_eof negb]. f_equal. apply DecimalNat.Unsigned.of_to.
Qed.

Lemma serialized_after_count n books :
  exists rest,
    serialized n books = (put_nat n ++ String "010" rest)%string.
Proof.
  unfold serialized. destruct books as [|book books]; simpl; [by eexists|].
  rewrite put_books_append. simpl. by eexists.
Qed.

(** X7. Reading a list's own text back into that list: [operator>>]
    reads the count, finds the list already that long, and returns with
    the list as it was -- none of the books in the text is looked at. *)
Theorem extraction_of_own_text fuel bl :
  containers_are_consistent bl = true ->
  exists text rest,
    operator_insertion EmptyString bl = Return text
    /\ operator_extraction (S fuel) (Istream text true) bl
       = Some (Return (Istream rest true), bl).
Proof.
  intros Hc.
  destruct (serialized_after_count (length (books_vector_ bl)) (books_sl_list_ bl))
    as [rest Hrest].
  exists (serialized (length (books_vector_ bl)) (books_sl_list_ bl)), rest.
  split; [by rewrite operator_insertion_consistent|].
  unfold operator_extraction. rewrite Hc, Hrest; cbn [negb].
  rewrite extract_size_t_put_nat by done.
  cbn [ignore good negb rdbuf ignore_chars extraction_loop].
  destruct (consistent_sizes bl Hc) as (_ & _ & Hsl).
  unfold books_sl_list_size. by rewrite Hsl, Nat.eqb_refl.
Qed.

Lemma append_new_length held rhs : length held <= length (append_new held rhs).
Proof.
  revert held; induction rhs as [|book rest IH]; intros held; simpl; [done|].
  destruct (std_find book held); [apply IH|].
  etrans; [|apply IH]. rewrite length_app; simpl; lia.
Qed.

Section FurtherReflexive.
Hypothesis book_eqb_refl : forall a : Book, book_eqb a a = true.

Lemma inserted_bottom_vector book bl :
  books_vector_ (inserted book (length (books_vector_ bl)) bl)
  = books_vector_ bl ++ [book].
Proof. simpl. unfold vector_insert. by rewrite take_ge, drop_ge by lia. Qed.

(** X8. Inserting a book the list does not hold, at an offset
    [<= size()], with room left in the array: [insert] returns, all
    four containers hold the old books with the new one at [offset],
    and [find] now returns [offset] for it. *)
Theorem insert_new_book bl book offset :
  in_lockstep bl ->
  ~ holds bl book ->
  offset <= length (books_vector_ bl) ->
  length (books_vector_ bl) < capacity ->
  exists bl',
    insert book offset bl = (Return tt, bl')
    /\ books_array_size_ bl' = S (length (books_vector_ bl))
    /\ books_vector_ bl'
       = take offset (books_vector_ bl) ++ book :: drop offset (books_vector_ bl)
    /\ array_contents bl' = books_vector_ bl'
    /\ books_dl_list_ bl' = books_vector_ bl'
    /\ books_sl_list_ bl' = books_vector_ bl'
    /\ find book bl' = Return offset.
Proof.
  intros Hl Hnew Hoff Hroom. exists (inserted book offset bl).
  assert (std_find book (books_vector_ bl) = None) as Hf.
  { destruct (std_find book (books_vector_ bl)) eqn:Hf; [|done].
    destruct Hnew. apply holds_std_find. by rewrite Hf. }
  assert (in_lockstep (inserted book offset bl)) as Hl'.
  { apply inserted_lockstep; [done|done|]. destruct Hl as (_ & -> & _). lia. }
  split.
  { rewrite (insert_lockstep book_eqb_refl) by done. rewrite Hf.
    destruct (Nat.ltb_spec (length (books_vector_ bl)) offset); [lia|].
    by destruct (Nat.leb_spec capacity (length (books_vector_ bl))); [lia|]. }
  destruct Hl' as (_ & Hsz' & Harr' & Hdl' & Hsl').
  split; [simpl; destruct Hl as (_ & -> & _); done|].
  split; [done|]. do 3 (split; [done|]).
  rewrite find_consistent
    by (apply (lockstep_consistent book_eqb_refl), inserted_lockstep; try done;
        destruct Hl as (_ & -> & _); lia).
  simpl. unfold vector_insert. rewrite std_find_first.
  - simpl. rewrite length_take. f_equal. lia.
  - apply Forall_forall. intros y [i Hi]%list_elem_of_lookup.
    apply lookup_take_Some in Hi as [Hi _].
    by apply (proj1 (std_find_None _ _) Hf i).
  - done.
Qed.

Lemma vector_erase_insert offset book (v : list Book) :
  offset <= length v -> vector_erase offset (vector_insert offset book v) = v.
Proof.
  intros Hoff. unfold vector_erase, vector_insert.
  rewrite take_app_length' by (rewrite length_take; lia).
  rewrite drop_app_ge by (rewrite length_take; lia).
  rewrite length_take. replace (S offset - offset `min` length v) with 1 by lia.
  simpl. rewrite drop_0. apply take_drop.
Qed.

(** X9. [insert] of a new book followed by [remove] at the same offset
    gives back what the list held: both calls return and all four
    containers hold the books they held before. *)
Theorem insert_then_remove bl book offset :
  in_lockstep bl ->
  ~ holds bl book ->
  offset <= length (books_vector_ bl) ->
  length (books_vector_ bl) < capacity ->
  exists bl1 bl2,
    insert book offset bl = (Return tt, bl1)
    /\ remove offset bl1 = (Return tt, bl2)
    /\ books_array_size_ bl2 = books_array_size_ bl
    /\ array_contents bl2 = array_contents bl
    /\ books_vector_ bl2 = books_vector_ bl
    /\ books_dl_list_ bl2 = books_dl_list_ bl
    /\ books_sl_list_ bl2 = books_sl_list_ bl.
Proof.
  intros Hl Hnew Hoff Hroom.
  exists (inserted book offset bl), (removed offset (inserted book offset bl)).
  assert (std_find book (books_vector_ bl) = None) as Hf.
  { destruct (std_find book (books_vector_ bl)) eqn:Hf; [|done].
    destruct Hnew. apply holds_std_find. by rewrite Hf. }
  assert (in_lockstep (inserted book offset bl)) as Hl1.
  { apply inserted_lockstep; [done|done|]. destruct Hl as (_ & -> & _). lia. }
  assert (length (books_vector_ (inserted book offset bl))
          = S (length (books_vector_ bl))) as Hlen.
  { simpl. unfold vector_insert. rewrite length_app, length_take; simpl.
    rewrite length_drop. lia. }
  assert (in_lockstep (removed offset (inserted book offset bl))) as Hl2.
  { apply removed_lockstep; [done|]. lia. }
  split.
  { rewrite (insert_lockstep book_eqb_refl) by done. rewrite Hf.
    destruct (Nat.ltb_spec (length (books_vector_ bl)) offset); [lia|].
    by destruct (Nat.leb_spec capacity (length (books_vector_ bl))); [lia|]. }
  split.
  { rewrite (remove_lockstep book_eqb_refl) by done. rewrite Hlen.
    by destruct (Nat.leb_spec (S (length (books_vector_ bl))) offset); [lia|]. }
  assert (books_vector_ (removed offset (inserted book offset bl)) = books_vector_ bl)
    as Hvec by (simpl; by apply vector_erase_insert).
  destruct Hl2 as (_ & Hsz2 & Harr2 & Hdl2 & Hsl2).
  destruct Hl as (_ & Hsz & Harr & Hdl & Hsl).
  rewrite Harr2, Hdl2, Hsl2, Hsz2, Hvec. by rewrite Harr, Hdl, Hsl, Hsz.
Qed.

Lemma for_each_bottom_appends rhs bl :
  in_lockstep bl ->
  length (append_new (books_vector_ bl) rhs) <= capacity ->
  exists bl',
    for_each rhs (fun book => insert_at book BOTTOM) bl = (Return tt, bl')
    /\ in_lockstep bl'
    /\ books_vector_ bl' = append_new (books_vector_ bl) rhs.
Proof.
  revert bl; induction rhs as [|book rest IH]; intros bl Hl Hfit; cbn [for_each].
  - by exists bl.
  - unfold bind at 1. rewrite insert_at_offset.
    rewrite (insert_lockstep book_eqb_refl) by done. rewrite Nat.ltb_irrefl.
    simpl in Hfit. destruct (std_find book (books_vector_ bl)) eqn:Hf.
    + simpl. rewrite Hf. by apply IH.
    + pose proof (append_new_length (books_vector_ bl ++ [book]) rest) as Hmono.
      rewrite length_app in Hmono; simpl in Hmono.
      destruct (Nat.leb_spec capacity (length (books_vector_ bl))); [lia|].
      assert (in_lockstep (inserted book (length (books_vector_ bl)) bl)) as Hl1.
      { apply inserted_lockstep; [done|done|]. destruct Hl as (_ & -> & _). lia. }
      destruct (IH _ Hl1) as (bl' & Hrun & Hl' & Hvec).
      { by rewrite inserted_bottom_vector. }
      exists bl'. split; [done|]. split; [done|].
      rewrite Hvec, inserted_bottom_vector. simpl. by rewrite Hf.
Qed.

Lemma for_each_bottom_overflows rhs bl :
  in_lockstep bl ->
  capacity < length (append_new (books_vector_ bl) rhs) ->
  fst (for_each rhs (fun book => insert_at book BOTTOM) bl)
  = Throw CapacityExceededException.
Proof.
  revert bl; induction rhs as [|book rest IH]; intros bl Hl Hover; cbn [for_each].
  - simpl in Hover. destruct (lockstep_lengths bl Hl). lia.
  - unfold bind at 1. rewrite insert_at_offset.
    rewrite (insert_lockstep book_eqb_refl) by done. rewrite Nat.ltb_irrefl.
    simpl in Hover. destruct (std_find book (books_vector_ bl)) eqn:Hf.
    + by apply IH.
    + destruct (Nat.leb_spec capacity (length (books_vector_ bl))); [done|].
      apply IH.
      * apply inserted_lockstep; [done|done|]. destruct Hl as (_ & -> & _). lia.
      * by rewrite inserted_bottom_vector.
Qed.

(** X10. [operator+=] on a list in lockstep appends the books of [rhs]
    the list does not hold yet, in the order of [rhs], each once.  It
    returns when the result fits the array, and throws
    [CapacityExceededException] when it does not. *)
Theorem concatenate_appends_new rhs bl :
  in_lockstep bl ->
  let result := append_new (books_vector_ bl) rhs in
  (length result <= capacity ->
   exists bl',
     concatenate_books rhs bl = (Return tt, bl')
     /\ books_array_size_ bl' = length result
     /\ array_contents bl' = result
     /\ books_vector_ bl' = result
     /\ books_dl_list_ bl' = result
     /\ books_sl_list_ bl' = result)
  /\ (capacity < length result ->
      fst (concatenate_books rhs bl) = Throw CapacityExceededException).
Proof.
  intros Hl result. subst result. split.
  - intros Hfit. destruct (for_each_bottom_appends rhs bl Hl Hfit) as (bl' & Hrun & Hl' & Hvec).
    exists bl'. unfold concatenate_books, bind. rewrite Hrun. unfold gets.
    rewrite (lockstep_consistent book_eqb_refl) by done.
    destruct Hl' as (_ & Hsz & Harr & Hdl & Hsl).
    by rewrite Hsz, Harr, Hdl, Hsl, Hvec.
  - intros Hover. pose proof (for_each_bottom_overflows rhs bl Hl Hover) as Hthrow.
    unfold concatenate_books, bind.
    destruct (for_each rhs (fun book => insert_at book BOTTOM) bl) as [[[]|e] bl1];
      simpl in *; [done|done].
Qed.

End FurtherReflexive.

(** *** Every mutator works through [insert] and [remove] *)

Section Keeps.
Variable inv : BookList -> Prop.
Hypothesis insert_keeps : forall book offset, keeps inv (insert book offset).
Hypothesis remove_keeps : forall offset, keeps inv (remove offset).

Lemma bind_keeps {A B} (m : M A) (k : A -> M B) :
  keeps inv m -> (forall a, keeps inv (k a)) -> keeps inv (bind m k).
Proof.
  intros Hm Hk bl Hbl. unfold bind. specialize (Hm bl Hbl).
  destruct (m bl) as [[a|e] bl1]; simpl in *; [by apply Hk|done].
Qed.

Lemma unchanged_keeps {A} (m : M A) : (forall bl, snd (m bl) = bl) -> keeps inv m.
Proof. intros Hm bl Hbl. by rewrite Hm. Qed.

Lemma checkpoint_keeps :
  keeps inv (bind (gets containers_are_consistent)
                  (fun ok => if negb ok then throw InvalidInternalStateException
                             else ret tt)).
Proof.
  apply bind_keeps; [by apply unchanged_keeps|].
  intros []; by apply unchanged_keeps.
Qed.

Lemma insert_at_keeps book position : keeps inv (insert_at book position).
Proof. intros bl Hbl. rewrite insert_at_offset. by apply insert_keeps. Qed.

Lemma remove_book_keeps book : keeps inv (remove_book book).
Proof.
  unfold remove_book. apply bind_keeps; [by apply unchanged_keeps|].
  intros pos. apply remove_keeps.
Qed.

Lemma move_to_top_keeps book : keeps inv (move_to_top book).
Proof.
  unfold move_to_top.
  apply bind_keeps; [by apply unchanged_keeps|intros pos].
  apply bind_keeps; [by apply unchanged_keeps|intros sz].
  apply bind_keeps; [|intros _; apply checkpoint_keeps].
  destruct (negb (pos =? sz)); [|by apply unchanged_keeps].
  apply bind_keeps; [apply remove_book_keeps|intros _; apply insert_keeps].
Qed.

Lemma concatenate_books_keeps rhs : keeps inv (concatenate_books rhs).
Proof.
  unfold concatenate_books.
  apply bind_keeps; [|intros _; apply checkpoint_keeps].
  induction rhs as [|book rest IH]; cbn [for_each].
  - by apply unchanged_keeps.
  - apply bind_keeps; [apply insert_at_keeps|by intros _].
Qed.

Lemma operator_extraction_keeps fuel stream bl o bl' :
  inv bl -> operator_extraction fuel stream bl = Some (o, bl') -> inv bl'.
Proof.
  intros Hbl. unfold operator_extraction.
  destruct (negb (containers_are_consistent bl)); [by intros [= <- <-]|].
  destruct (extract_size_t stream) as [stream' count].
  generalize (ignore 1 stream'). clear stream stream'. intros stream.
  revert stream bl Hbl; induction fuel as [|fuel IH]; intros stream bl Hbl;
    cbn [extraction_loop]; [done|].
  destruct (negb (count =? books_sl_list_size bl)); [|by intros [= <- <-]].
  destruct (book_extraction (ignore 4 stream) book_default) as [stream' temp_book].
  pose proof (insert_at_keeps temp_book BOTTOM bl Hbl) as Hins.
  destruct (insert_at temp_book BOTTOM bl) as [[[]|e] bl1]; simpl in Hins.
  - by apply IH.
  - by intros [= <- <-].
Qed.

(** A property of the empty list that [insert(book, offset)] and
    [remove(offset)] keep holds of every list a program can reach. *)
Lemma reachable_keeps bl : inv empty_book_list -> reachable bl -> inv bl.
Proof.
  intros Hempty.
  induction 1 as [ | init_list | bl book offset _ IH | bl book position _ IH
                 | bl offset _ IH | bl book _ IH | bl book _ IH | bl rhs _ IH
                 | bl rhs _ IH _ _ | bl rhs _ IH1 _ IH2 | bl rhs _ IH1 _ IH2
                 | bl fuel stream o bl' _ IH Hex ].
  - done.
  - by apply concatenate_books_keeps.
  - by apply insert_keeps.
  - by apply insert_at_keeps.
  - by apply remove_keeps.
  - by apply remove_book_keeps.
  - by apply move_to_top_keeps.
  - by apply concatenate_books_keeps.
  - by apply concatenate_books_keeps.
  - by destruct bl, rhs.
  - by destruct bl, rhs.
  - by eapply operator_extraction_keeps.
Qed.

End Keeps.

Section FurtherDecides.
Hypothesis book_eqb_spec : forall a b : Book, book_eqb a b = true <-> a = b.

Lemma consistent_walk_equal arr v dl sl :
  length dl = length v -> length sl = length v ->
  consistent_walk arr v dl sl = true ->
  take (length v) arr = v /\ dl = v /\ sl = v.
Proof.
  revert arr dl sl; induction v as [|x v IH]; intros arr dl sl Hdl Hsl.
  - by destruct dl, sl.
  - destruct arr as [|a arr], dl as [|d dl], sl as [|s sl]; try done. simpl.
    unfold book_neqb.
    destruct (book_eqb a x) eqn:Hx; [|done].
    destruct (book_eqb a d) eqn:Hd; [|done].
    destruct (book_eqb a s) eqn:Hs; [|done]. simpl.
    apply book_eqb_spec in Hx as <-. apply book_eqb_spec in Hd as <-.
    apply book_eqb_spec in Hs as <-.
    intros Hw. destruct (IH arr dl sl) as (Ha & -> & ->); try done.
    + by injection Hdl.
    + by injection Hsl.
    + by rewrite Ha.
Qed.

(** X11. [containers_are_consistent()] is true exactly when
    [books_array_size_] is the number of books in the vector and the
    array's live slots, the doubly linked list and the singly linked
    list each hold the vector's books in the vector's order. *)
Theorem consistent_iff_equal bl :
  containers_are_consistent bl = true
  <-> books_array_size_ bl = length (books_vector_ bl)
      /\ array_contents bl = books_vector_ bl
      /\ books_dl_list_ bl = books_vector_ bl
      /\ books_sl_list_ bl = books_vector_ bl.
Proof.
  split.
  - intros Hc. destruct (consistent_sizes bl Hc) as (Hsz & Hdl & Hsl).
    unfold containers_are_consistent, books_sl_list_size in Hc.
    rewrite Hdl, Hsl, Hsz, Nat.eqb_refl in Hc; simpl in Hc.
    apply consistent_walk_equal in Hc as (Harr & -> & ->); [|done|done].
    unfold array_contents. by rewrite Hsz.
  - intros (Hsz & Harr & Hdl & Hsl).
    unfold containers_are_consistent, books_sl_list_size.
    rewrite Hdl, Hsl, Hsz, Nat.eqb_refl; simpl.
    apply consistent_walk_same; [intros a; by apply book_eqb_spec|].
    unfold array_contents in Harr. by rewrite <- Hsz.
Qed.

Lemma remove_duplicate_free offset bl :
  duplicate_free bl -> duplicate_free (snd (remove offset bl)).
Proof.
  intros Hnd.
  destruct (containers_are_consistent bl) eqn:Hc;
    [|by rewrite remove_inconsistent].
  rewrite remove_consistent by done.
  destruct (length (books_vector_ bl) <=? offset); [done|].
  assert (duplicate_free (removed offset bl)) as Hrem.
  { apply (duplicate_free_NoDup book_eqb_spec); simpl. unfold vector_erase.
    rewrite <- delete_take_drop.
    eapply sublist_NoDup; [|apply sublist_delete].
    by apply (duplicate_free_NoDup book_eqb_spec). }
  by destruct (containers_are_consistent (removed offset bl)).
Qed.

(** X12. Every list a program can reach holds at most [capacity]
    books and holds no book twice. *)
Theorem reachable_bounded_duplicate_free bl :
  reachable bl ->
  length (books_vector_ bl) <= capacity
  /\ duplicate_free bl
  /\ NoDup (books_vector_ bl).
Proof.
  intros Hr.
  assert (duplicate_free bl) as Hnd.
  { apply (reachable_keeps duplicate_free);
      [intros book offset bl0; by apply insert_duplicate_free
      |intros offset bl0; apply remove_duplicate_free
      |by intros [|i] j x y Hi
      |done]. }
  split; [|split; [done|by apply (duplicate_free_NoDup book_eqb_spec)]].
  apply lockstep_lengths, reachable_lockstep; [|done].
  intros a. by apply book_eqb_spec.
Qed.

Lemma NoDup_middle_find book (before after : list Book) :
  NoDup (before ++ book :: after) ->
  std_find book (before ++ book :: after) = Some (length before)
  /\ std_find book (before ++ after) = None.
Proof.
  intros Hnd. apply NoDup_app in Hnd as (_ & Hsep & Hafter).
  apply NoDup_cons in Hafter as [Hafter _].
  split.
  - apply std_find_first; [|by apply book_eqb_spec].
    apply Forall_forall. intros y Hy.
    destruct (book_eqb y book) eqn:Hyb; [|done].
    apply book_eqb_spec in Hyb as ->. destruct (Hsep book Hy). by left.
  - apply std_find_None. intros i x Hx.
    destruct (book_eqb x book) eqn:Hxb; [|done].
    apply book_eqb_spec in Hxb as ->.
    apply list_elem_of_lookup_2, elem_of_app in Hx as [Hx|Hx]; [|done].
    destruct (Hsep book Hx). by left.
Qed.

Lemma removed_middle bl book before after :
  in_lockstep bl ->
  books_vector_ bl = before ++ book :: after ->
  in_lockstep (removed (length before) bl)
  /\ books_vector_ (removed (length before) bl) = before ++ after.
Proof.
  intros Hl Hv. split.
  - apply removed_lockstep; [done|]. rewrite Hv, length_app; simpl. lia.
  - simpl. unfold vector_erase. rewrite Hv.
    rewrite take_app_length, drop_app_ge by lia.
    replace (S (length before) - length before) with 1 by lia.
    simpl. by rewrite drop_0.
Qed.

Lemma book_eqb_refl_of_spec (a : Book) : book_eqb a a = true.
Proof. by apply book_eqb_spec. Qed.

Lemma absent_find bl book :
  ~ holds bl book -> std_find book (books_vector_ bl) = None.
Proof.
  intros Hnew. destruct (std_find book (books_vector_ bl)) eqn:Hf; [|done].
  destruct Hnew. apply holds_std_find. by rewrite Hf.
Qed.

Lemma remove_book_held bl book before after :
  in_lockstep bl -> duplicate_free bl ->
  books_vector_ bl = before ++ book :: after ->
  remove_book book bl = (Return tt, removed (length before) bl).
Proof.
  intros Hl Hnd Hv.
  apply (duplicate_free_NoDup book_eqb_spec) in Hnd. rewrite Hv in Hnd.
  destruct (NoDup_middle_find _ _ _ Hnd) as [Hfind _].
  rewrite (remove_book_lockstep book_eqb_refl_of_spec) by done.
  rewrite Hv, Hfind; simpl.
  rewrite (remove_lockstep book_eqb_refl_of_spec) by done. rewrite Hv.
  destruct (Nat.leb_spec (length (before ++ book :: after)) (length before)) as [Hle|];
    [|done].
  rewrite length_app in Hle; simpl in Hle. lia.
Qed.

(** X13. [remove(book)] on a list in lockstep that holds no book
    twice: a book the list does not hold leaves it as it is; a book it
    holds is taken out of all four containers, the other books keep
    their order, and the list no longer holds the book. *)
Theorem remove_book_removes bl book :
  in_lockstep bl ->
  duplicate_free bl ->
  (~ holds bl book -> remove_book book bl = (Return tt, bl))
  /\ (forall before after,
        books_vector_ bl = before ++ book :: after ->
        exists bl',
          remove_book book bl = (Return tt, bl')
          /\ books_array_size_ bl' = length (before ++ after)
          /\ array_contents bl' = before ++ after
          /\ books_vector_ bl' = before ++ after
          /\ books_dl_list_ bl' = before ++ after
          /\ books_sl_list_ bl' = before ++ after
          /\ ~ holds bl' book).
Proof.
  intros Hl Hnd. split.
  - intros Hnew%absent_find.
    rewrite (remove_book_lockstep book_eqb_refl_of_spec) by done.
    rewrite Hnew; simpl.
    rewrite (remove_lockstep book_eqb_refl_of_spec) by done.
    by rewrite Nat.leb_refl.
  - intros before after Hv. exists (removed (length before) bl).
    split; [by apply (remove_book_held bl book before after)|].
    destruct (removed_middle bl book before after Hl Hv)
      as ((_ & Hsz & Harr & Hdl & Hsl) & Hvec).
    rewrite Hsz, Harr, Hdl, Hsl, Hvec. do 5 (split; [done|]).
    intros Hheld%holds_std_find. rewrite Hvec in Hheld.
    apply (duplicate_free_NoDup book_eqb_spec) in Hnd. rewrite Hv in Hnd.
    destruct (NoDup_middle_find _ _ _ Hnd) as [_ Hnone].
    rewrite Hnone in Hheld. by destruct Hheld.
Qed.

(** X14. [move_to_top(book)] on a list in lockstep that holds no book
    twice: a book the list does not hold leaves it as it is; a book it
    holds becomes the first book of all four containers and the other
    books keep their order behind it.  The call returns in both
    cases. *)
Theorem move_to_top_moves bl book :
  in_lockstep bl ->
  duplicate_free bl ->
  (~ holds bl book -> move_to_top book bl = (Return tt, bl))
  /\ (forall before after,
        books_vector_ bl = before ++ book :: after ->
        exists bl',
          move_to_top book bl = (Return tt, bl')
          /\ books_array_size_ bl' = books_array_size_ bl
          /\ array_contents bl' = book :: before ++ after
          /\ books_vector_ bl' = book :: before ++ after
          /\ books_dl_list_ bl' = book :: before ++ after
          /\ books_sl_list_ bl' = book :: before ++ after).
Proof.
  intros Hl Hnd.
  pose proof (lockstep_consistent book_eqb_refl_of_spec bl Hl) as Hc.
  split.
  - intros Hnew%absent_find.
    unfold move_to_top, bind, call, gets.
    rewrite find_consistent, size_consistent, Hnew by done; simpl.
    rewrite Nat.eqb_refl. unfold ret, throw; simpl. by rewrite Hc.
  - intros before after Hv.
    pose proof Hnd as Hnd'.
    apply (duplicate_free_NoDup book_eqb_spec) in Hnd'. rewrite Hv in Hnd'.
    destruct (NoDup_middle_find _ _ _ Hnd') as [Hfind Hnone].
    destruct (removed_middle bl book before after Hl Hv) as (Hl1 & Hvec1).
    set (bl1 := removed (length before) bl) in *.
    assert (length (before ++ after) < capacity) as Hroom.
    { destruct (lockstep_lengths bl Hl) as [Hle _].
      rewrite Hv, length_app in Hle. simpl in Hle. rewrite length_app. lia. }
    assert (insert book 0 bl1 = (Return tt, inserted book 0 bl1)) as Hins.
    { rewrite (insert_lockstep book_eqb_refl_of_spec) by done.
      rewrite Hvec1, Hnone. simpl.
      by destruct (Nat.leb_spec capacity (length (before ++ after))); [lia|]. }
    assert (in_lockstep (inserted book 0 bl1)) as Hl2.
    { apply inserted_lockstep; [done|lia|]. destruct Hl1 as (_ & -> & _).
      by rewrite Hvec1. }
    exists (inserted book 0 bl1). split.
    { assert (find book bl = Return (length before)) as Hfb.
      { rewrite find_consistent by done. by rewrite Hv, Hfind. }
      unfold move_to_top, bind, call, gets.
      rewrite Hfb, size_consistent by done.
      destruct (Nat.eqb_spec (length before) (length (books_vector_ bl)))
        as [Heq|_]; [rewrite Hv, length_app in Heq; simpl in Heq; lia|].
      simpl. rewrite (remove_book_held bl book before after) by done.
      fold bl1. rewrite Hins. unfold ret, throw; simpl.
      by rewrite (lockstep_consistent book_eqb_refl_of_spec). }
    destruct Hl2 as (_ & Hsz2 & Harr2 & Hdl2 & Hsl2).
    assert (books_vector_ (inserted book 0 bl1) = book :: before ++ after) as Hvec2.
    { simpl. unfold vector_insert. rewrite take_0, drop_0. simpl.
      f_equal. exact Hvec1. }
    rewrite Hsz2, Harr2, Hdl2, Hsl2, Hvec2.
    split; [|done]. destruct Hl as (_ & -> & _).
    rewrite Hv. simpl. rewrite !length_app. simpl. lia.
Qed.

Lemma append_new_NoDup (held rhs : list Book) :
  NoDup (held ++ rhs) -> append_new held rhs = held ++ rhs.
Proof.
  revert held; induction rhs as [|book rest IH]; intros held Hnd; simpl.
  - by rewrite app_nil_r.
  - assert (std_find book held = None) as ->.
    { apply std_find_None. intros i x Hx.
      destruct (book_eqb x book) eqn:Hxb; [|done].
      apply book_eqb_spec in Hxb as ->.
      apply NoDup_app in Hnd as (_ & Hsep & _).
      destruct (Hsep book); [by eapply list_elem_of_lookup_2|by left]. }
    rewrite IH; rewrite <- app_assoc; done.
Qed.

(** X15. [BookList{b1, ..., bn}] for [n <= capacity] different books
    builds the list of exactly these books in the order written; with
    more different books than the array has slots the constructor
    throws [CapacityExceededException]. *)
Theorem initializer_list_builds init_list :
  NoDup init_list ->
  (length init_list <= capacity ->
   exists bl,
     from_initializer_list init_list = (Return tt, bl)
     /\ books_array_size_ bl = length init_list
     /\ array_contents bl = init_list
     /\ books_vector_ bl = init_list
     /\ books_dl_list_ bl = init_list
     /\ books_sl_list_ bl = init_list)
  /\ (capacity < length init_list ->
      fst (from_initializer_list init_list) = Throw CapacityExceededException).
Proof.
  intros Hnd. unfold from_initializer_list, concatenate_books, bind.
  pose proof (append_new_NoDup [] init_list Hnd) as Hnew. split.
  - intros Hfit.
    destruct (for_each_bottom_appends book_eqb_refl_of_spec init_list
                empty_book_list empty_lockstep) as (bl & Hrun & Hl & Hvec).
    { simpl. by rewrite Hnew. }
    exists bl. rewrite Hrun. unfold gets.
    rewrite (lockstep_consistent book_eqb_refl_of_spec) by done.
    destruct Hl as (_ & Hsz & Harr & Hdl & Hsl).
    rewrite Hsz, Harr, Hdl, Hsl, Hvec. simpl. by rewrite Hnew.
  - intros Hover.
    pose proof (for_each_bottom_overflows book_eqb_refl_of_spec init_list
                  empty_book_list empty_lockstep) as Hthrow.
    change (books_vector_ empty_book_list) with (@nil Book) in Hthrow.
    rewrite Hnew in Hthrow. specialize (Hthrow Hover).
    destruct (for_each init_list (fun book => insert_at book BOTTOM) empty_book_list)
      as [[[]|e] bl1]; simpl in *; [done|done].
Qed.

(** X17. [remove(offset)] followed by [insert] of the removed book at
    the same offset gives back what the list held, on a list in
    lockstep that holds no book twice: both calls return and all four
    containers hold the books they held before. *)
Theorem remove_then_insert bl book before after :
  in_lockstep bl ->
  duplicate_free bl ->
  books_vector_ bl = before ++ book :: after ->
  exists bl1 bl2,
    remove (length before) bl = (Return tt, bl1)
    /\ insert book (length before) bl1 = (Return tt, bl2)
    /\ books_array_size_ bl2 = books_array_size_ bl
    /\ array_contents bl2 = array_contents bl
    /\ books_vector_ bl2 = books_vector_ bl
    /\ books_dl_list_ bl2 = books_dl_list_ bl
    /\ books_sl_list_ bl2 = books_sl_list_ bl.
Proof.
  intros Hl Hnd Hv.
  apply (duplicate_free_NoDup book_eqb_spec) in Hnd. rewrite Hv in Hnd.
  destruct (NoDup_middle_find _ _ _ Hnd) as [_ Hnone].
  destruct (removed_middle bl book before after Hl Hv) as (Hl1 & Hvec1).
  set (bl1 := removed (length before) bl) in *.
  destruct (lockstep_lengths bl Hl) as [Hle _].
  rewrite Hv, length_app in Hle; simpl in Hle.
  assert (in_lockstep (inserted book (length before) bl1)) as Hl2.
  { apply inserted_lockstep; [done|rewrite Hvec1, length_app; lia|].
    destruct Hl1 as (_ & -> & _). rewrite Hvec1, length_app. lia. }
  exists bl1, (inserted book (length before) bl1).
  split.
  { rewrite (remove_lockstep book_eqb_refl_of_spec) by done. rewrite Hv.
    destruct (Nat.leb_spec (length (before ++ book :: after)) (length before)) as [Hbad|];
      [|done].
    rewrite length_app in Hbad; simpl in Hbad. lia. }
  split.
  { rewrite (insert_lockstep book_eqb_refl_of_spec) by done. rewrite Hvec1, Hnone.
    destruct (Nat.ltb_spec (length (before ++ after)) (length before)) as [Hbad|];
      [rewrite length_app in Hbad; lia|].
    destruct (Nat.leb_spec capacity (length (before ++ after))) as [Hbad|]; [|done].
    rewrite length_app in Hbad. lia. }
  assert (books_vector_ (inserted book (length before) bl1) = books_vector_ bl) as Hvec2.
  { unfold inserted; cbn [books_vector_]. unfold vector_insert. rewrite Hvec1, Hv.
    by rewrite take_app_length, drop_app_length. }
  destruct Hl2 as (_ & Hsz2 & Harr2 & Hdl2 & Hsl2).
  destruct Hl as (_ & Hsz & Harr & Hdl & Hsl).
  rewrite Hsz2, Harr2, Hdl2, Hsl2, Hvec2. by rewrite Hsz, Harr, Hdl, Hsl.
Qed.

End FurtherDecides.

Section FurtherOrder.
Hypothesis book_gtb_ltb : forall a b : Book, book_gtb a b = book_ltb b a.
Hypothesis book_ltb_irrefl : forall a : Book, book_ltb a a = false.
Hypothesis book_ltb_trans :
  forall a b c : Book, book_ltb a b = true -> book_ltb b c = true -> book_ltb a c = true.
Hypothesis book_ltb_connected :
  forall a b : Book, book_ltb a b = false -> book_ltb b a = false -> a = b.

(** X16. The six relational operators agree with one another on
    consistent lists: [a < b] is [b > a] and [a <= b] is [b >= a];
    [a == b] holds exactly when the lists hold the same books in the
    same order, [a != b] is its negation, [a <= b] is the negation of
    [a > b] and [a >= b] that of [a < b]; and of [a <= b] and [b <= a]
    at least one holds. *)
Theorem operators_agree a b :
  containers_are_consistent a = true ->
  containers_are_consistent b = true ->
  operator_lt a b = operator_gt b a
  /\ operator_le a b = operator_ge b a
  /\ (operator_eq a b = Return true <-> books_vector_ a = books_vector_ b)
  /\ (operator_ne a b = Return true <-> operator_eq a b = Return false)
  /\ (operator_le a b = Return true <-> operator_gt a b = Return false)
  /\ (operator_ge a b = Return true <-> operator_lt a b = Return false)
  /\ (operator_le a b = Return true \/ operator_le b a = Return true).
Proof.
  intros Ha Hb.
  unfold operator_eq, operator_ne, operator_lt, operator_le, operator_gt,
    operator_ge, on_compare.
  rewrite (compare_consistent a b), (compare_consistent b a) by done.
  rewrite (compare_value_antisym book_gtb_ltb book_ltb_irrefl book_ltb_trans
             (books_vector_ a) (books_vector_ b)).
  pose proof (compare_value_zero book_gtb_ltb book_ltb_irrefl book_ltb_connected
                (books_vector_ a) (books_vector_ b)) as Hzero.
  set (c := compare_value (books_vector_ a) (books_vector_ b)) in *.
  rewrite !Z.gtb_ltb, !Z.geb_leb.
  destruct (Z.ltb_spec c 0), (Z.ltb_spec 0 c), (Z.ltb_spec 0 (- c)),
    (Z.leb_spec c 0), (Z.leb_spec 0 c), (Z.leb_spec 0 (- c)),
    (Z.leb_spec (- c) 0), (Z.eqb_spec c 0); try lia;
    repeat split; try done; try (intros; exfalso; lia); try tauto;
    try (intros _; apply Hzero; lia); try (intros ?%Hzero; lia); auto.
Qed.

End FurtherOrder.

Section NoInternalFault.
Hypothesis book_eqb_refl : forall a : Book, book_eqb a a = true.

Lemma insert_no_internal_fault book offset bl :
  in_lockstep bl ->
  fst (insert book offset bl) <> Throw InvalidInternalStateException.
Proof.
  intros Hl. rewrite (insert_lockstep book_eqb_refl) by done.
  destruct (length (books_vector_ bl) <? offset); [done|].
  destruct (std_find book (books_vector_ bl)); [done|].
  by destruct (capacity <=? length (books_vector_ bl)).
Qed.

Lemma move_to_top_returns book bl :
  in_lockstep bl -> fst (move_to_top book bl) = Return tt.
Proof.
  intros Hl. pose proof (lockstep_consistent book_eqb_refl bl Hl) as Hc.
  unfold move_to_top, bind, call, gets.
  rewrite find_consistent, size_consistent by done.
  destruct (std_find book (books_vector_ bl)) as [i|] eqn:Hf; simpl.
  - destruct (std_find_Some _ _ _ Hf) as [Hi _].
    destruct (Nat.eqb_spec i (length (books_vector_ bl))); [lia|]. simpl.
    rewrite (remove_book_lockstep book_eqb_refl) by done.
    rewrite Hf, find_default_index.
    rewrite (remove_lockstep book_eqb_refl) by done.
    destruct (Nat.leb_spec (length (books_vector_ bl)) i); [lia|].
    pose proof (removed_lockstep i bl Hl Hi) as Hl1.
    assert (length (books_vector_ (removed i bl)) < capacity) as Hroom.
    { destruct (lockstep_lengths bl Hl) as [Hle _]. simpl. unfold vector_erase.
      rewrite length_app, length_take, length_drop. lia. }
    rewrite (insert_lockstep book_eqb_refl) by done.
    destruct (_ <? 0) eqn:Hzero; [apply Nat.ltb_lt in Hzero; lia|].
    destruct (std_find book (books_vector_ (removed i bl))).
    + unfold ret, throw. by rewrite (lockstep_consistent book_eqb_refl).
    + destruct (Nat.leb_spec capacity (length (books_vector_ (removed i bl)))); [lia|].
      unfold ret, throw. rewrite (lockstep_consistent book_eqb_refl); [done|].
      apply inserted_lockstep; [done|lia|]. by destruct Hl1 as (_ & -> & _).
  - rewrite Nat.eqb_refl. unfold ret, throw; simpl. by rewrite Hc.
Qed.

Lemma for_each_no_internal_fault books bl :
  in_lockstep bl ->
  fst (for_each books (fun book => insert_at book BOTTOM) bl)
  <> Throw InvalidInternalStateException.
Proof.
  revert bl; induction books as [|book rest IH]; intros bl Hl; cbn [for_each]; [done|].
  unfold bind at 1.
  pose proof (insert_at_preserves book_eqb_refl book BOTTOM bl Hl) as Hl1.
  pose proof (insert_no_internal_fault book (length (books_vector_ bl)) bl Hl) as Hno.
  rewrite <- (insert_at_offset book BOTTOM) in Hno.
  destruct (insert_at book BOTTOM bl) as [[[]|e] bl1]; simpl in *; [by apply IH|done].
Qed.

(** X20. On a list whose containers are in lockstep -- every list a
    program can reach -- no member function throws
    [InvalidInternalStateException]: [size], [find], [compare] and
    [operator<<] return, [remove(offset)], [remove(book)] and
    [move_to_top] return, and [insert], [operator+=] and [operator>>]
    return or throw one of the other two exceptions. *)
Theorem no_internal_fault bl other book offset position rhs fuel stream o bl' :
  in_lockstep bl ->
  in_lockstep other ->
  returned (size bl) = true
  /\ returned (find book bl) = true
  /\ returned (compare bl other) = true
  /\ returned (operator_insertion EmptyString bl) = true
  /\ fst (remove offset bl) = Return tt
  /\ fst (remove_book book bl) = Return tt
  /\ fst (move_to_top book bl) = Return tt
  /\ fst (insert book offset bl) <> Throw InvalidInternalStateException
  /\ fst (insert_at book position bl) <> Throw InvalidInternalStateException
  /\ fst (concatenate_books rhs bl) <> Throw InvalidInternalStateException
  /\ (operator_extraction fuel stream bl = Some (o, bl') ->
      o <> Throw InvalidInternalStateException).
Proof.
  intros Hl Hother.
  pose proof (lockstep_consistent book_eqb_refl bl Hl) as Hc.
  pose proof (lockstep_consistent book_eqb_refl other Hother) as Hc'.
  split; [by rewrite size_consistent|].
  split; [by rewrite find_consistent|].
  split; [by rewrite compare_consistent|].
  split; [by rewrite operator_insertion_consistent|].
  split.
  { rewrite (remove_lockstep book_eqb_refl) by done.
    by destruct (length (books_vector_ bl) <=? offset). }
  split.
  { rewrite (remove_book_lockstep book_eqb_refl), (remove_lockstep book_eqb_refl) by done.
    by destruct (length (books_vector_ bl) <=? _). }
  split; [by apply move_to_top_returns|].
  split; [by apply insert_no_internal_fault|].
  split; [rewrite insert_at_offset; by apply insert_no_internal_fault|].
  split.
  { unfold concatenate_books, bind.
    pose proof (for_each_no_internal_fault rhs bl Hl) as Hno.
    pose proof (for_each_preserves rhs (fun book => insert_at book BOTTOM)
                  (fun book => insert_at_preserves book_eqb_refl book BOTTOM) bl Hl) as Hl1.
    destruct (for_each rhs (fun book => insert_at book BOTTOM) bl) as [[[]|e] bl1];
      simpl in *; [|done].
    unfold gets. by rewrite (lockstep_consistent book_eqb_refl). }
  unfold operator_extraction. rewrite Hc; cbn [negb].
  destruct (extract_size_t stream) as [stream' count].
  generalize (ignore 1 stream'). clear stream stream'. intros stream.
  revert stream bl Hl Hc; induction fuel as [|fuel IH]; intros stream bl Hl Hc;
    cbn [extraction_loop]; [done|].
  destruct (negb (count =? books_sl_list_size bl)); [|by intros [= <- <-]].
  destruct (book_extraction (ignore 4 stream) book_default) as [stream' temp_book].
  pose proof (insert_at_preserves book_eqb_refl temp_book BOTTOM bl Hl) as Hl1.
  pose proof (insert_no_internal_fault temp_book (length (books_vector_ bl)) bl Hl) as Hno.
  rewrite <- (insert_at_offset temp_book BOTTOM) in Hno.
  destruct (insert_at temp_book BOTTOM bl) as [[[]|e] bl1]; simpl in *.
  - apply IH; [done|]. by apply (lockstep_consistent book_eqb_refl).
  - intros [= <- <-] [= ->]. by destruct Hno.
Qed.

End NoInternalFault.

End BookListProperties.

Example sample_shelf_value :
  sample_shelf = @MkBookList sample_books [7; 8; 9] 3 [7; 8; 9] [7; 8; 9] [7; 8; 9].
Proof. reflexivity. Qed.

(** The sample book's own text form reads back. *)
Example sample_book_reads_back :
  @book_extraction sample_books
    (Istream (@book_insertion sample_books 42 ++ String "010" EmptyString) true) 0
  = (Istream (String "010" EmptyString) true, 42).
Proof. reflexivity. Qed.

(** C6. [operator<<] followed by [operator>>] does not give the list
    back.  [operator<<] writes each book behind an eight-character
    label ([std::setw(5)] index, colon, two spaces); [operator>>] skips
    four characters and hands the rest, label digit first, to the
    book's own extraction.  With sample books [{5, 3}] is written as
    three lines and read back as [{0, 1}], the labels; [compare] of the
    two lists returns 1 and [==] returns false. *)
Theorem round_trip_reads_labels :
  @operator_insertion sample_books EmptyString sample_pair = Return sample_pair_text
  /\ @operator_extraction sample_books 3 (Istream sample_pair_text true)
       (@empty_book_list sample_books)
     = Some (Return (Istream (":  3" ++ String "010" EmptyString) true),
             sample_pair_parsed)
  /\ @compare sample_books sample_pair sample_pair_parsed = Return 1%Z
  /\ @operator_eq sample_books sample_pair sample_pair_parsed = Return false.
Proof. repeat split; vm_compute; reflexivity. Qed.

(** ** The theorems at the sample books *)

Lemma sample_eqb_refl : forall a : @Book sample_books, @book_eqb sample_books a a = true.
Proof. intros a. apply Nat.eqb_refl. Qed.

Lemma sample_eqb_spec :
  forall a b : @Book sample_books, @book_eqb sample_books a b = true <-> a = b.
Proof. intros a b. apply Nat.eqb_eq. Qed.

Lemma sample_shelf_reachable : @reachable sample_books sample_shelf.
Proof. apply reach_initializer_list. Qed.

Lemma sample_shelf_lockstep : @in_lockstep sample_books sample_shelf.
Proof. by repeat split. Qed.

Lemma sample_shelf_holds_8 : @holds sample_books sample_shelf 8.
Proof. by exists 1, 8. Qed.

Lemma sample_shelf_lacks_5 : ~ @holds sample_books sample_shelf 5.
Proof.
  intros [x Hx]%(@holds_std_find sample_books). vm_compute in Hx. discriminate.
Qed.

Lemma reachable_containers_consistent_witness :
  @reachable sample_books sample_shelf
  /\ @containers_are_consistent sample_books sample_shelf = true
  /\ @array_contents sample_books sample_shelf = books_vector_ sample_shelf.
Proof.
  split; [apply sample_shelf_reachable|].
  pose proof (@reachable_containers_consistent sample_books sample_eqb_refl
                sample_shelf sample_shelf_reachable) as (H1 & _ & _ & _ & H2 & _).
  by split.
Defined.

Lemma insert_full_capacity_fault_witness :
  @insert sample_books 5 3 sample_shelf = (Throw CapacityExceededException, sample_shelf).
Proof.
  apply (@insert_full_capacity_fault sample_books sample_shelf 3 5 3).
  - reflexivity.
  - reflexivity.
  - apply sample_shelf_lacks_5.
  - lia.
Defined.

Lemma insert_invalid_offset_witness :
  @insert sample_books 5 4 sample_shelf = (Throw InvalidOffsetException, sample_shelf)
  /\ fst (@insert sample_books 5 2 sample_shelf) <> Throw InvalidOffsetException.
Proof.
  split.
  - apply (@insert_invalid_offset sample_books sample_shelf 3 5 4); [reflexivity|lia].
  - apply (@insert_invalid_offset sample_books sample_shelf 3 5 2); [reflexivity|lia].
Defined.

Lemma insert_keeps_duplicate_free_witness :
  @insert sample_books 8 0 sample_shelf = (Return tt, sample_shelf)
  /\ @duplicate_free sample_books
       (@insert_all sample_books [(7, 0); (4, 1); (4, 0)] sample_single).
Proof.
  destruct (@insert_keeps_duplicate_free sample_books sample_eqb_spec) as [Hdup Hrun].
  split.
  - apply (Hdup sample_shelf 3 8 0); [reflexivity|apply sample_shelf_holds_8|lia].
  - apply (Hrun sample_single); [by repeat split|].
    intros [|[|i]] [|[|j]] x y Hx Hy; try done.
Defined.

Lemma remove_at_offset_witness :
  @remove sample_books 5 sample_shelf = (Return tt, sample_shelf)
  /\ exists bl', @remove sample_books 1 sample_shelf = (Return tt, bl')
                 /\ books_vector_ bl' = [7; 9].
Proof.
  destruct (@remove_at_offset sample_books sample_eqb_refl sample_shelf 5
              sample_shelf_lockstep) as (_ & Hbeyond & _).
  destruct (@remove_at_offset sample_books sample_eqb_refl sample_shelf 1
              sample_shelf_lockstep) as (_ & _ & Hwithin).
  split; [apply Hbeyond; simpl; lia|].
  destruct Hwithin as (before & book & after & bl' & Hv & Hb & Hr & _ & _ & Hv' & _);
    [simpl; lia|].
  exists bl'. split; [done|].
  rewrite Hv'. destruct before as [|b0 [|b1 before]]; try done.
  by injection Hv as <- _ <-.
Defined.

Lemma insert_duplicate_offset_first_witness :
  @insert sample_books 8 4 sample_shelf = (Throw InvalidOffsetException, sample_shelf)
  /\ @insert sample_books 8 3 sample_shelf = (Return tt, sample_shelf).
Proof.
  destruct (@insert_duplicate_offset_first sample_books sample_shelf 3 8 4 eq_refl
              sample_shelf_holds_8) as (Hbeyond & _).
  destruct (@insert_duplicate_offset_first sample_books sample_shelf 3 8 3 eq_refl
              sample_shelf_holds_8) as (_ & Hwithin & _).
  split; [apply Hbeyond; lia|apply Hwithin; lia].
Defined.

Lemma insert_duplicate_before_capacity_witness :
  @insert sample_books 8 3 sample_shelf = (Return tt, sample_shelf).
Proof.
  apply (@insert_duplicate_before_capacity sample_books sample_shelf 3 8 3).
  - reflexivity.
  - reflexivity.
  - apply sample_shelf_holds_8.
  - lia.
Defined.

Lemma compare_total_order_witness :
  @compare sample_books sample_pair sample_shelf = Return (-1)%Z
  /\ @operator_lt sample_books sample_pair sample_shelf = Return true.
Proof.
  destruct (@compare_total_order sample_books
              (fun a b => eq_refl)
              Nat.ltb_irrefl
              (fun a b c Hab Hbc =>
                 proj2 (Nat.ltb_lt a c)
                   (Nat.lt_trans a b c (proj1 (Nat.ltb_lt a b) Hab)
                      (proj1 (Nat.ltb_lt b c) Hbc)))
              (fun a b Hab Hba =>
                 Nat.le_antisymm a b (proj1 (Nat.ltb_ge b a) Hba)
                   (proj1 (Nat.ltb_ge a b) Hab))
              sample_pair sample_shelf eq_refl eq_refl)
    as (c & Hc & Hshort & _ & _ & _ & _ & _ & Hlt & _).
  rewrite Hc, Hlt, Hshort by (simpl; lia). done.
Defined.

(** A list holding book 7 and a stream declaring one element, book 5:
    the operator returns and the list still holds book 7 alone. *)
Lemma extraction_stops_at_list_size_witness :
  @operator_extraction sample_books 1
    (Istream ("1" ++ String "010" "    0:  5" ++ String "010" EmptyString) true)
    sample_single
  = Some (Return (Istream ("    0:  5" ++ String "010" EmptyString) true),
          sample_single).
Proof.
  apply (@extraction_stops_at_list_size sample_books 0
           (Istream ("1" ++ String "010" "    0:  5" ++ String "010" EmptyString) true)
           (Istream (String "010" "    0:  5" ++ String "010" EmptyString) true)
           sample_single).
  - reflexivity.
  - reflexivity.
Defined.

(** ** The further properties at the sample books *)

Lemma sample_gtb_ltb :
  forall a b : @Book sample_books, @book_gtb sample_books a b = @book_ltb sample_books b a.
Proof. done. Qed.

Lemma sample_ltb_irrefl : forall a : @Book sample_books, @book_ltb sample_books a a = false.
Proof. apply Nat.ltb_irrefl. Qed.

Lemma sample_ltb_trans :
  forall a b c : @Book sample_books,
    @book_ltb sample_books a b = true -> @book_ltb sample_books b c = true ->
    @book_ltb sample_books a c = true.
Proof. intros a b c ?%Nat.ltb_lt ?%Nat.ltb_lt. apply Nat.ltb_lt. lia. Qed.

Lemma sample_ltb_connected :
  forall a b : @Book sample_books,
    @book_ltb sample_books a b = false -> @book_ltb sample_books b a = false -> a = b.
Proof. intros a b ?%Nat.ltb_ge ?%Nat.ltb_ge. lia. Qed.

Lemma sample_shelf_duplicate_free : @duplicate_free sample_books sample_shelf.
Proof.
  apply (@duplicate_free_NoDup sample_books sample_eqb_spec).
  change (@NoDup nat [7; 8; 9]). by apply (bool_decide_unpack _).
Qed.

Lemma sample_single_lockstep : @in_lockstep sample_books sample_single.
Proof. by repeat split. Qed.

Lemma sample_single_lacks_5 : ~ @holds sample_books sample_single 5.
Proof.
  intros [x Hx]%(@holds_std_find sample_books). vm_compute in Hx. discriminate.
Qed.

Lemma find_first_match_witness :
  exists i, @find sample_books 8 sample_shelf = Return i /\ i <= 3.
Proof.
  destruct (@find_first_match sample_books sample_shelf 8 eq_refl) as (i & Hi & Hle & _).
  by exists i.
Defined.

Lemma inconsistent_list_throws_witness :
  @insert sample_books 5 0 sample_torn = (Throw InvalidInternalStateException, sample_torn)
  /\ @size sample_books sample_torn = Throw InvalidInternalStateException.
Proof.
  destruct (@inconsistent_list_throws sample_books sample_torn sample_shelf 5 0 TOP []
              sample_stream EmptyString 1 eq_refl) as (Hsize & _ & Hinsert & _).
  by split.
Defined.


Lemma insertion_appends_witness :
  exists text,
    @operator_insertion sample_books "shelf "%string sample_shelf
    = Return ("shelf " ++ text)%string.
Proof.
  destruct (@insertion_appends sample_books "shelf "%string sample_shelf eq_refl)
    as (text & _ & Htext).
  by exists text.
Defined.

Lemma extraction_of_own_text_witness :
  exists text rest,
    @operator_insertion sample_books EmptyString sample_shelf = Return text
    /\ @operator_extraction sample_books 1 (Istream text true) sample_shelf
       = Some (Return (Istream rest true), sample_shelf).
Proof. exact (@extraction_of_own_text sample_books 0 sample_shelf eq_refl). Defined.

Lemma insert_new_book_witness :
  exists bl',
    @insert sample_books 5 0 sample_single = (Return tt, bl')
    /\ books_vector_ bl' = [5; 7]
    /\ @find sample_books 5 bl' = Return 0.
Proof.
  destruct (@insert_new_book sample_books sample_eqb_refl sample_single 5 0
              sample_single_lockstep sample_single_lacks_5)
    as (bl' & Hins & _ & Hvec & _ & _ & _ & Hfind); [simpl; lia|simpl; lia|].
  by exists bl'.
Defined.

Lemma insert_then_remove_witness :
  exists bl1 bl2,
    @insert sample_books 5 1 sample_single = (Return tt, bl1)
    /\ @remove sample_books 1 bl1 = (Return tt, bl2)
    /\ books_vector_ bl2 = [7].
Proof.
  destruct (@insert_then_remove sample_books sample_eqb_refl sample_single 5 1
              sample_single_lockstep sample_single_lacks_5)
    as (bl1 & bl2 & Hins & Hrem & _ & _ & Hvec & _); [simpl; lia|simpl; lia|].
  by exists bl1, bl2.
Defined.

Lemma concatenate_appends_new_witness :
  (exists bl', @concatenate_books sample_books [7; 5; 5] sample_single = (Return tt, bl')
               /\ books_vector_ bl' = [7; 5])
  /\ fst (@concatenate_books sample_books [1; 2; 3] sample_single)
     = Throw CapacityExceededException.
Proof.
  split.
  - destruct (@concatenate_appends_new sample_books sample_eqb_refl [7; 5; 5]
                sample_single sample_single_lockstep) as [Hfit _].
    destruct Hfit as (bl' & Hcat & _ & _ & Hvec & _); [simpl; lia|].
    by exists bl'.
  - destruct (@concatenate_appends_new sample_books sample_eqb_refl [1; 2; 3]
                sample_single sample_single_lockstep) as [_ Hover].
    apply Hover. simpl. lia.
Defined.

Lemma consistent_iff_equal_witness :
  @array_contents sample_books sample_shelf = books_vector_ sample_shelf.
Proof.
  destruct (proj1 (@consistent_iff_equal sample_books sample_eqb_spec sample_shelf)
              eq_refl) as (_ & Harr & _).
  exact Harr.
Defined.

Lemma reachable_bounded_duplicate_free_witness :
  length (books_vector_ sample_shelf) <= 3 /\ NoDup (books_vector_ sample_shelf).
Proof.
  destruct (@reachable_bounded_duplicate_free sample_books sample_eqb_spec sample_shelf
              sample_shelf_reachable) as (Hle & _ & Hnd).
  by split.
Defined.

Lemma remove_book_removes_witness :
  exists bl',
    @remove_book sample_books 8 sample_shelf = (Return tt, bl')
    /\ books_vector_ bl' = [7; 9]
    /\ ~ @holds sample_books bl' 8.
Proof.
  destruct (@remove_book_removes sample_books sample_eqb_spec sample_shelf 8
              sample_shelf_lockstep sample_shelf_duplicate_free) as [_ Hheld].
  destruct (Hheld [7] [9] eq_refl) as (bl' & Hrem & _ & _ & Hvec & _ & _ & Hgone).
  by exists bl'.
Defined.

Lemma move_to_top_moves_witness :
  exists bl',
    @move_to_top sample_books 9 sample_shelf = (Return tt, bl')
    /\ books_vector_ bl' = [9; 7; 8].
Proof.
  destruct (@move_to_top_moves sample_books sample_eqb_spec sample_shelf 9
              sample_shelf_lockstep sample_shelf_duplicate_free) as [_ Hheld].
  destruct (Hheld [7; 8] [] eq_refl) as (bl' & Hmove & _ & _ & Hvec & _).
  by exists bl'.
Defined.

Lemma initializer_list_builds_witness :
  exists bl,
    @from_initializer_list sample_books [7; 8; 9] = (Return tt, bl)
    /\ books_vector_ bl = [7; 8; 9].
Proof.
  destruct (@initializer_list_builds sample_books sample_eqb_spec [7; 8; 9]) as [Hfit _].
  - change (@NoDup nat [7; 8; 9]). by apply (bool_decide_unpack _).
  - destruct Hfit as (bl & Hbuild & _ & _ & Hvec & _); [simpl; lia|].
    by exists bl.
Defined.

Lemma operators_agree_witness :
  @operator_lt sample_books sample_pair sample_shelf
  = @operator_gt sample_books sample_shelf sample_pair.
Proof.
  destruct (@operators_agree sample_books sample_gtb_ltb sample_ltb_irrefl
              sample_ltb_trans sample_ltb_connected sample_pair sample_shelf
              eq_refl eq_refl) as (Hlt & _).
  exact Hlt.
Defined.

Lemma remove_then_insert_witness :
  exists bl1 bl2,
    @remove sample_books 1 sample_shelf = (Return tt, bl1)
    /\ @insert sample_books 8 1 bl1 = (Return tt, bl2)
    /\ books_vector_ bl2 = [7; 8; 9].
Proof.
  destruct (@remove_then_insert sample_books sample_eqb_spec sample_shelf 8 [7] [9]
              sample_shelf_lockstep sample_shelf_duplicate_free eq_refl)
    as (bl1 & bl2 & Hrem & Hins & _ & _ & Hvec & _).
  by exists bl1, bl2.
Defined.

Lemma concatenate_self_witness :
  @concatenate sample_books sample_shelf sample_shelf = (Return tt, sample_shelf).
Proof.
  exact (@concatenate_self sample_books sample_eqb_refl sample_shelf
           sample_shelf_lockstep).
Defined.


Lemma no_internal_fault_witness :
  fst (@move_to_top sample_books 9 sample_shelf) = Return tt
  /\ fst (@insert sample_books 5 0 sample_shelf) <> Throw InvalidInternalStateException.
Proof.
  destruct (@no_internal_fault sample_books sample_eqb_refl sample_shelf sample_single
              9 0 TOP [] 0 sample_stream (Return sample_stream) sample_shelf
              sample_shelf_lockstep sample_single_lockstep)
    as (_ & _ & _ & _ & _ & _ & Hmove & _).
  destruct (@no_internal_fault sample_books sample_eqb_refl sample_shelf sample_single
              5 0 TOP [] 0 sample_stream (Return sample_stream) sample_shelf
              sample_shelf_lockstep sample_single_lockstep)
    as (_ & _ & _ & _ & _ & _ & _ & Hinsert & _).
  by split.
Defined.
